(** * File organizer: a shallow embedding of [src/file_organizer.py]

    The development embeds the two engines of the script:
    - [organize_files]: one pass over the top-level entries of a directory,
      classifying each regular file by name pattern or extension and moving
      it into a category folder;
    - [generate_report]: the walk over the directory tree that builds the
      per-directory listings, the totals and the deletion-candidate list.

    Filenames are ASCII strings; [str.lower] is modelled on ASCII letters.
    The file system is a finite map from paths (lists of path components)
    to entries.  Everything the script reads from the outside world (the
    clock, the outcome of [shutil.move], the results of [os.stat]) is an
    explicit input of the model. *)

From Stdlib Require Import Ascii String ZArith QArith Sorted.
From stdpp Require Import base gmap strings list.

Open Scope string_scope.
Open Scope list_scope.

(* ------------------------------------------------------------------ *)
(** ** Strings *)

Definition lower_ascii (c : ascii) : ascii :=
  let n := nat_of_ascii c in
  if (65 <=? n)%nat && (n <=? 90)%nat then ascii_of_nat (n + 32) else c.

Definition upper_ascii (c : ascii) : ascii :=
  let n := nat_of_ascii c in
  if (97 <=? n)%nat && (n <=? 122)%nat then ascii_of_nat (n - 32) else c.

(** [str.lower] *)
Fixpoint lower (s : string) : string :=
  match s with
  | EmptyString => EmptyString
  | String c t => String (lower_ascii c) (lower t)
  end.

Fixpoint is_prefix (p s : string) : bool :=
  match p, s with
  | EmptyString, _ => true
  | String c p', String d s' => Ascii.eqb c d && is_prefix p' s'
  | String _ _, EmptyString => false
  end.

(** Python's [sub in s] on strings. *)
Fixpoint contains (sub s : string) : bool :=
  is_prefix sub s ||
  match s with
  | EmptyString => false
  | String _ t => contains sub t
  end.

(** [s.rfind(c)]: [None] stands for Python's [-1]. *)
Fixpoint rfind_aux (c : ascii) (s : string) (i : nat) (acc : option nat)
  : option nat :=
  match s with
  | EmptyString => acc
  | String x t => rfind_aux c t (S i) (if Ascii.eqb x c then Some i else acc)
  end.

Definition rfind (c : ascii) (s : string) : option nat := rfind_aux c s 0 None.

Fixpoint has_non_dot (s : string) : bool :=
  match s with
  | EmptyString => false
  | String c t => negb (Ascii.eqb c ".") || has_non_dot t
  end.

(** [os.path.splitext] (posixpath, through [genericpath._splitext]):
    the extension starts at the last dot, provided the dot comes after the
    last separator and some non-dot character of the final component
    precedes it (leading dots do not start an extension). *)
Definition splitext (p : string) : string * string :=
  let start := match rfind "/" p with Some k => S k | None => 0%nat end in
  match rfind "." p with
  | Some d =>
      if (start <=? d)%nat && has_non_dot (substring start (d - start) p)
      then (substring 0 d p, substring d (String.length p - d) p)
      else (p, "")
  | None => (p, "")
  end.

(* ------------------------------------------------------------------ *)
(** ** Regular expressions, searched with [re.IGNORECASE]

    The patterns of the script use literals, alternation, character
    classes, [?] and fixed repetition only.  [match_at r s] lists every
    remainder of [s] left after a match of [r] at the front of [s]; since
    the patterns have no back-references, [re.search] succeeds exactly when
    some start position admits a match. *)

Inductive regex : Type :=
  | REps : regex
  | RChar (c : ascii) : regex
  | RRange (lo hi : ascii) : regex
  | RAlt (r1 r2 : regex) : regex
  | RSeq (r1 r2 : regex) : regex
  | ROpt (r : regex) : regex.

Definition in_range (lo hi x : ascii) : bool :=
  (nat_of_ascii lo <=? nat_of_ascii x)%nat && (nat_of_ascii x <=? nat_of_ascii hi)%nat.

(** Case-insensitive character tests. *)
Definition char_ok (c x : ascii) : bool := Ascii.eqb (lower_ascii x) (lower_ascii c).

Definition range_ok (lo hi x : ascii) : bool :=
  in_range lo hi x || in_range lo hi (lower_ascii x) || in_range lo hi (upper_ascii x).

Fixpoint match_at (r : regex) (s : string) : list string :=
  match r with
  | REps => [s]
  | RChar c =>
      match s with
      | String x t => if char_ok c x then [t] else []
      | EmptyString => []
      end
  | RRange lo hi =>
      match s with
      | String x t => if range_ok lo hi x then [t] else []
      | EmptyString => []
      end
  | RAlt r1 r2 => match_at r1 s ++ match_at r2 s
  | RSeq r1 r2 => flat_map (match_at r2) (match_at r1 s)
  | ROpt r1 => match_at r1 s ++ [s]
  end.

(** [re.search(pattern, s, re.IGNORECASE) is not None] *)
Fixpoint re_search (r : regex) (s : string) : bool :=
  negb (Nat.eqb (List.length (match_at r s)) 0) ||
  match s with
  | EmptyString => false
  | String _ t => re_search r t
  end.

Fixpoint lit (s : string) : regex :=
  match s with
  | EmptyString => REps
  | String c EmptyString => RChar c
  | String c t => RSeq (RChar c) (lit t)
  end.

Fixpoint alts (ws : list string) : regex :=
  match ws with
  | [] => REps
  | [w] => lit w
  | w :: ws' => RAlt (lit w) (alts ws')
  end.

Fixpoint seqs (rs : list regex) : regex :=
  match rs with
  | [] => REps
  | [r] => r
  | r :: rs' => RSeq r (seqs rs')
  end.

(** [r'(20\d{2})[-_]?(0[1-9]|1[0-2])[-_]?(0[1-9]|[12][0-9]|3[01])'] *)
Definition date_pattern : regex :=
  let digit := RRange "0" "9" in
  let sep := RAlt (RChar "-") (RChar "_") in
  seqs [ seqs [lit "20"; digit; digit];
         ROpt sep;
         RAlt (RSeq (RChar "0") (RRange "1" "9")) (RSeq (RChar "1") (RRange "0" "2"));
         ROpt sep;
         RAlt (RSeq (RChar "0") (RRange "1" "9"))
              (RAlt (RSeq (RRange "1" "2") digit) (RSeq (RChar "3") (RRange "0" "1"))) ].

(* ------------------------------------------------------------------ *)
(** ** Configuration tables of [organize_files] *)

(** [name_patterns]: a dict, iterated in insertion order. *)
Definition name_patterns : list (regex * string) :=
  [ (alts ["backup"; "bak"], "BackupFiles");
    (alts ["temp"; "tmp"], "TemporaryFiles");
    (alts ["draft"; "wip"], "WorkInProgress");
    (alts ["old"; "outdated"; "deprecated"], "OldFiles");
    (alts ["screenshot"; "screen"; "scrn"], "Screenshots");
    (alts ["report"; "review"], "Reports");
    (alts ["invoice"; "receipt"; "bill"], "FinancialDocs");
    (alts ["log"; "logs"], "LogFiles");
    (alts ["presentation"; "slides"], "Presentations");
    (alts ["project"; "prj"], "ProjectFiles");
    (alts ["data"; "dataset"], "DataFiles");
    (alts ["test"; "testing"], "TestFiles");
    (alts ["sample"; "example"], "SampleFiles");
    (alts ["config"; "cfg"; "settings"], "ConfigFiles");
    (alts ["note"; "notes"], "Notes");
    (alts ["download"; "dl"], "Downloads");
    (alts ["scan"; "scanned"], "ScannedDocs");
    (date_pattern, "DateFormattedFiles");
    (alts ["website"; "site"; "web"], "WebProjects") ].

(** [extension_map]: a dict with unique keys, read by key. *)
Definition extension_map : list (string * string) :=
  [ (".doc", "Documents/Word"); (".docx", "Documents/Word");
    (".pdf", "Documents/PDF"); (".txt", "Documents/Text");
    (".rtf", "Documents/Text"); (".xlsx", "Documents/Excel");
    (".xls", "Documents/Excel"); (".pptx", "Documents/PowerPoint");
    (".ppt", "Documents/PowerPoint");
    (".jpg", "Images/JPEG"); (".jpeg", "Images/JPEG"); (".png", "Images/PNG");
    (".gif", "Images/GIF"); (".bmp", "Images/BMP"); (".svg", "Images/SVG");
    (".mp3", "Audio/MP3"); (".wav", "Audio/WAV"); (".flac", "Audio/FLAC");
    (".aac", "Audio/AAC");
    (".mp4", "Video/MP4"); (".avi", "Video/AVI"); (".mkv", "Video/MKV");
    (".mov", "Video/MOV");
    (".zip", "Archives/ZIP"); (".rar", "Archives/RAR"); (".tar", "Archives/TAR");
    (".gz", "Archives/GZ");
    (".py", "Programming/Python"); (".java", "Programming/Java");
    (".cpp", "Programming/C++"); (".c", "Programming/C");
    (".html", "WebDevelopment"); (".htm", "WebDevelopment");
    (".css", "WebDevelopment"); (".js", "WebDevelopment");
    (".php", "WebDevelopment"); (".jsx", "WebDevelopment");
    (".ts", "WebDevelopment"); (".tsx", "WebDevelopment") ].

Fixpoint assoc_lookup (k : string) (m : list (string * string)) : option string :=
  match m with
  | [] => None
  | (k', v) :: m' => if String.eqb k k' then Some v else assoc_lookup k m'
  end.

(* ------------------------------------------------------------------ *)
(** ** Classification (the body of the loop of [organize_files] up to
    the computation of [folder_name]) *)

(** [for pattern, folder in name_patterns.items(): if re.search(...): break] *)
Fixpoint first_name_match (pats : list (regex * string)) (filename : string)
  : option string :=
  match pats with
  | [] => None
  | (pattern, folder) :: pats' =>
      if re_search pattern filename then Some folder
      else first_name_match pats' filename
  end.

Definition classify_with (pats : list (regex * string)) (ext_map : list (string * string))
    (organize_by_name : bool) (filename : string) : string :=
  let extension := lower (snd (splitext filename)) in
  let name_match := if organize_by_name then first_name_match pats filename else None in
  match name_match with
  | Some folder => folder
  | None =>
      match assoc_lookup extension ext_map with
      | Some folder => folder
      | None =>
          "Other/" +:+ (if String.eqb extension "" then "No_Extension"
                        else substring 1 (String.length extension - 1) extension)
      end
  end.

(** [folder_name] as computed by [organize_files] for [filename]. *)
Definition classify (organize_by_name : bool) (filename : string) : string :=
  classify_with name_patterns extension_map organize_by_name filename.

(* ------------------------------------------------------------------ *)
(** ** File system, clock and the outside world *)

Inductive entry : Type :=
  | File (content : nat)
  | Dir.

Abbreviation path := (list string).

Abbreviation fsys := (gmap (list string) entry).

Definition path_exists (fs : fsys) (p : path) : bool :=
  match fs !! p with Some _ => true | None => false end.

Definition path_isdir (fs : fsys) (p : path) : bool :=
  match fs !! p with Some Dir => true | _ => false end.

(** Splitting a slash-separated folder name into path components; empty
    components ([Other/] when the extension is a lone dot) are dropped, as
    path resolution does. *)
Fixpoint split_on (c : ascii) (s : string) : list string :=
  match s with
  | EmptyString => [""]
  | String x t =>
      match split_on c t with
      | [] => []
      | w :: ws => if Ascii.eqb x c then "" :: w :: ws else String x w :: ws
      end
  end.

Definition components (s : string) : path :=
  List.filter (fun w => negb (String.eqb w "")) (split_on "/" s).

(** The fields of [time.localtime()] used by [time.strftime]. *)
Record tm : Type := {
  tm_year : nat; tm_mon : nat; tm_mday : nat;
  tm_hour : nat; tm_min : nat; tm_sec : nat }.

Definition digit_char (d : nat) : ascii := ascii_of_nat (48 + d).

(** [%m %d %H %M %S]: two digits, zero padded. *)
Definition pad2 (n : nat) : string :=
  String (digit_char (n / 10)) (String (digit_char (n mod 10)) "").

(** [%Y]: four digits for the years of [time.localtime]. *)
Definition pad4 (n : nat) : string :=
  String (digit_char (n / 1000))
    (String (digit_char (n / 100 mod 10))
       (String (digit_char (n / 10 mod 10)) (String (digit_char (n mod 10)) ""))).

(** [time.strftime("_%Y%m%d_%H%M%S")] *)
Definition strftime_ts (t : tm) : string :=
  "_" +:+ pad4 (tm_year t) +:+ pad2 (tm_mon t) +:+ pad2 (tm_mday t)
  +:+ "_" +:+ pad2 (tm_hour t) +:+ pad2 (tm_min t) +:+ pad2 (tm_sec t).

(** The outside world as seen by [organize_files]: the local time read at
    the [n]-th loop iteration, and whether the underlying rename/copy of
    [shutil.move] raises (permissions, locks, ...). *)
Record env : Type := {
  clock : nat -> tm;
  move_fails : path -> path -> bool }.

(** [os.makedirs(p, exist_ok=True)]: creates the missing prefixes from the
    top; raises as soon as a prefix exists and is not a directory (the
    directories created before are kept). *)
Fixpoint makedirs_from (fs : fsys) (pre rest : path) : fsys * bool :=
  match rest with
  | [] => (fs, true)
  | c :: rest' =>
      let q := pre ++ [c] in
      match fs !! q with
      | Some (File _) => (fs, false)
      | Some Dir => makedirs_from fs q rest'
      | None => makedirs_from (<[q := Dir]> fs) q rest'
      end
  end.

Definition makedirs (fs : fsys) (p : path) : fsys * bool := makedirs_from fs [] p.

(** [shutil.move(src, dst)]: into [dst] when it is a directory (raising if
    [dst/basename(src)] exists), otherwise a rename onto [dst].  [None] is
    a raised exception; the new path is returned with the new file system. *)
Definition shutil_move (e : env) (fs : fsys) (src dst : path) : option (fsys * path) :=
  let real_dst := if path_isdir fs dst then dst ++ [List.last src ""] else dst in
  if (path_isdir fs dst && path_exists fs real_dst) || move_fails e src real_dst
  then None
  else match fs !! src with
       | Some ent => Some (<[real_dst := ent]> (delete src fs), real_dst)
       | None => None
       end.

(** [os.listdir(directory)]: the names of the direct children. *)
Fixpoint strip_prefix (p k : path) : option path :=
  match p, k with
  | [], _ => Some k
  | x :: p', y :: k' => if String.eqb x y then strip_prefix p' k' else None
  | _ :: _, [] => None
  end.

Definition child_name (dir k : path) : option string :=
  match strip_prefix dir k with Some [n] => Some n | _ => None end.

Definition listdir (fs : fsys) (dir : path) : list string :=
  omap (fun kv : path * entry => child_name dir kv.1) (map_to_list fs).

(* ------------------------------------------------------------------ *)
(** ** [organize_files] *)

(** The diagnostics printed by the loop, one per examined entry. *)
Inductive event : Type :=
  | EvSkipDir (name : string)
  | EvMoved (name : string) (dst : path)
  | EvMoveError (name : string)
  | EvAbort (name : string).

Definition event_name (ev : event) : string :=
  match ev with
  | EvSkipDir n | EvMoved n _ | EvMoveError n | EvAbort n => n
  end.

Record ostate : Type := {
  o_fs : fsys;
  o_moved : nat;
  o_log : list event;
  o_tick : nat }.

(** [target_path], after the collision check. *)
Definition collision_target (now : tm) (fs : fsys) (target_folder : path)
    (filename : string) : path :=
  let target_path := target_folder ++ [filename] in
  if path_exists fs target_path then
    let '(name, ext) := splitext filename in
    target_folder ++ [name +:+ strftime_ts now +:+ ext]
  else target_path.

(** One iteration of [for filename in os.listdir(directory)].  [inl] is the
    state for the next iteration; [inr] is the state when an exception
    escapes the inner [try] (only [os.makedirs] can raise there), which the
    outer [try] catches, ending the loop. *)
Definition process_entry (e : env) (directory : path) (organize_by_name : bool)
    (st : ostate) (filename : string) : ostate + ostate :=
  let fs := o_fs st in
  let now := clock e (o_tick st) in
  let tick := S (o_tick st) in
  let file_path := directory ++ [filename] in
  if path_isdir fs file_path then
    inl {| o_fs := fs; o_moved := o_moved st;
           o_log := o_log st ++ [EvSkipDir filename]; o_tick := tick |}
  else
    let folder_name := classify organize_by_name filename in
    let target_folder := directory ++ components folder_name in
    let '(fs1, ok) := makedirs fs target_folder in
    if negb ok then
      inr {| o_fs := fs1; o_moved := o_moved st;
             o_log := o_log st ++ [EvAbort filename]; o_tick := tick |}
    else
      let target_path := collision_target now fs1 target_folder filename in
      match shutil_move e fs1 file_path target_path with
      | Some (fs2, _) =>
          inl {| o_fs := fs2; o_moved := S (o_moved st);
                 o_log := o_log st ++ [EvMoved filename target_path]; o_tick := tick |}
      | None =>
          inl {| o_fs := fs1; o_moved := o_moved st;
                 o_log := o_log st ++ [EvMoveError filename]; o_tick := tick |}
      end.

(** The loop; the boolean tells whether the outer [except] was reached. *)
Fixpoint organize_loop (e : env) (directory : path) (organize_by_name : bool)
    (st : ostate) (names : list string) : ostate * bool :=
  match names with
  | [] => (st, false)
  | filename :: names' =>
      match process_entry e directory organize_by_name st filename with
      | inl st' => organize_loop e directory organize_by_name st' names'
      | inr st' => (st', true)
      end
  end.

Definition init_state (fs : fsys) : ostate :=
  {| o_fs := fs; o_moved := 0; o_log := []; o_tick := 0 |}.

(** A missing directory returns 0 at once; a path that is not a directory
    makes [os.listdir] raise inside the outer [try]: nothing is moved. *)
Definition organize_run (e : env) (fs : fsys) (directory : path)
    (organize_by_name : bool) : ostate * bool :=
  if path_isdir fs directory
  then organize_loop e directory organize_by_name (init_state fs) (listdir fs directory)
  else (init_state fs, false).

(** [organize_files(directory_path, organize_by_name)]: the file system
    after the run and the returned count. *)
Definition organize_files (e : env) (fs : fsys) (directory : path)
    (organize_by_name : bool) : fsys * nat :=
  let st := fst (organize_run e fs directory organize_by_name) in
  (o_fs st, o_moved st).

(* ------------------------------------------------------------------ *)
(** ** [generate_report] *)

(** What the walk reads for one file: [os.path.getsize], [os.path.getmtime]
    and the [time.time()] read right after them.  [None] when [getsize] or
    [getmtime] raises.  Float arithmetic is modelled in [Q]. *)
Record stat_result : Type := {
  st_size : Z;
  st_mtime : Q;
  st_now : Q }.

(** One triple of [os.walk]: [os.path.relpath(root, directory)] and the
    files of [root], each with the outcome of its metadata read. *)
Definition walk_dir : Type := string * list (string * option stat_result).

(** [age_days = (time.time() - modified) / (60 * 60 * 24)] *)
Definition file_age (st : stat_result) : Q := ((st_now st - st_mtime st) / 86400)%Q.

Definition deletion_categories : list string :=
  ["TemporaryFiles"; "BackupFiles"; "OldFiles"; "Duplicates"; "Downloads"; "Cache"].

(** The [for category in deletion_categories] loop. *)
Definition marker_hit (rel_path file : string) : bool :=
  existsb (fun category => contains (lower category) (lower rel_path)
                           || contains (lower category) (lower file))
          deletion_categories.

(** [is_candidate] after the marker loop and the [age_days > 180] test. *)
Definition is_candidate (rel_path file : string) (age_days : Q) : bool :=
  if negb (Qle_bool age_days 180%Q) then true else marker_hit rel_path file.

(** A [file_details] entry: (file, size, modified, age_days). *)
Definition detail : Type := string * Z * Q * Q.
(** A [potential_deletions] entry: (rel_path, file, size, age_days). *)
Definition candidate : Type := string * string * Z * Q.

(** [list.sort(key=..., reverse=True)]: stable, largest key first. *)
Fixpoint insert_desc {A} (key : A -> Z) (x : A) (l : list A) : list A :=
  match l with
  | [] => [x]
  | y :: l' => if (key x <=? key y)%Z then y :: insert_desc key x l' else x :: l
  end.

Definition sort_desc {A} (key : A -> Z) (l : list A) : list A :=
  fold_left (fun acc x => insert_desc key x acc) l [].

Definition detail_size (d : detail) : Z := d.1.1.2.
Definition candidate_size (c : candidate) : Z := c.1.2.

(** The body of [for file in files], with the accumulators
    ([file_details], [directory_size], [potential_deletions]). *)
Definition report_file (rel_path : string)
    (acc : list detail * Z * list candidate) (f : string * option stat_result)
    : list detail * Z * list candidate :=
  let '(file_details, directory_size, potential_deletions) := acc in
  let '(file, meta) := f in
  match meta with
  | Some st =>
      let age_days := file_age st in
      (file_details ++ [(file, st_size st, st_mtime st, age_days)],
       (directory_size + st_size st)%Z,
       if is_candidate rel_path file age_days
       then potential_deletions ++ [(rel_path, file, st_size st, age_days)]
       else potential_deletions)
  | None =>
      (file_details ++ [(file, 0%Z, 0%Q, 0%Q)], directory_size, potential_deletions)
  end.

Record rstate : Type := {
  r_total_files : nat;
  r_total_size : Z;
  r_deletions : list candidate;
  r_sections : list (string * list detail) }.

Definition rel_label (rel : string) : string :=
  if String.eqb rel "." then "Root Directory" else rel.

(** One iteration of [for root, dirs, files in os.walk(directory)]. *)
Definition report_dir (report_filename : string) (st : rstate) (d : walk_dir) : rstate :=
  let '(rel, files0) := d in
  let files := List.filter (fun f => negb (String.eqb f.1 report_filename)) files0 in
  match files with
  | [] => st
  | _ :: _ =>
      let rel_path := rel_label rel in
      let '(file_details, directory_size, potential_deletions) :=
        fold_left (report_file rel_path) files ([], 0%Z, r_deletions st) in
      {| r_total_files := r_total_files st + List.length files;
         r_total_size := (r_total_size st + directory_size)%Z;
         r_deletions := potential_deletions;
         r_sections := r_sections st ++ [(rel_path, sort_desc detail_size file_details)] |}
  end.

Definition report_init : rstate :=
  {| r_total_files := 0; r_total_size := 0%Z; r_deletions := []; r_sections := [] |}.

Definition report_walk (report_filename : string) (walk : list walk_dir) : rstate :=
  fold_left (report_dir report_filename) walk report_init.

(** Python's true division [a / b] on ints. *)
Definition py_div (a b : Z) : option Q :=
  if (b =? 0)%Z then None else Some (inject_Z a / inject_Z b)%Q.

Inductive exn_kind : Type :=
  | ZeroDivisionError
  | OSError.

Record report : Type := {
  rep_walk : rstate;
  rep_candidates : list candidate;      (** sorted, largest first *)
  rep_savings : option (Z * Q) }.      (** bytes and percentage *)

(** [None] from [generate_report]: the directory is missing, or an
    exception reached the [except] around the whole report. *)
Inductive report_outcome : Type :=
  | Missing
  | Raised (e : exn_kind)
  | Written (r : report).

Definition generate_report (dir_exists open_ok : bool) (report_filename : string)
    (walk : list walk_dir) : report_outcome :=
  if negb dir_exists then Missing
  else if negb open_ok then Raised OSError
  else
    let st := report_walk report_filename walk in
    match r_deletions st with
    | [] => Written {| rep_walk := st; rep_candidates := []; rep_savings := None |}
    | _ :: _ =>
        let sorted := sort_desc candidate_size (r_deletions st) in
        let potential_savings := fold_left Z.add (map candidate_size sorted) 0%Z in
        match py_div potential_savings (r_total_size st) with
        | None => Raised ZeroDivisionError
        | Some q =>
            Written {| rep_walk := st; rep_candidates := sorted;
                       rep_savings := Some (potential_savings, (q * 100)%Q) |}
        end
    end.

Definition outcome_savings (o : report_outcome) : option (option (Z * Q)) :=
  match o with Written r => Some (rep_savings r) | _ => None end.

(* ------------------------------------------------------------------ *)
(** ** Vocabulary of the properties *)

(** The ranges of the fields of [time.localtime()] (four-digit years). *)
Definition valid_tm (t : tm) : Prop :=
  (1000 <= tm_year t <= 9999) /\ (1 <= tm_mon t <= 12) /\ (1 <= tm_mday t <= 31) /\
  tm_hour t <= 23 /\ tm_min t <= 59 /\ tm_sec t <= 61.

Definition is_digit (c : ascii) : bool := in_range "0" "9" c.

Fixpoint all_digits (s : string) : bool :=
  match s with
  | EmptyString => true
  | String c t => is_digit c && all_digits t
  end.

(** A token [_DDDDDDDD_DDDDDD]: fourteen digits in the layout
    [_YYYYMMDD_HHMMSS]. *)
Definition ts_token (s : string) : bool :=
  (String.length s =? 16)%nat &&
  match String.get 0 s, String.get 9 s with
  | Some c0, Some c9 => Ascii.eqb c0 "_" && Ascii.eqb c9 "_"
  | _, _ => false
  end &&
  all_digits (substring 1 8 s) && all_digits (substring 10 6 s).

Definition count_moved (log : list event) : nat :=
  List.length (List.filter (fun ev => match ev with EvMoved _ _ => true | _ => false end) log).

(** A sample directory [/d]: four loose files, with [photo.JPG] already
    present in [Images/JPEG], and a clock reading 2026-10-18 09:05. *)
Definition demo_fs : fsys :=
  list_to_map [ (["d"], Dir); (["d"; "photo.JPG"], File 1);
                (["d"; "notes_backup.txt"], File 2); (["d"; "script.py"], File 3);
                (["d"; "unknown.xyz"], File 4); (["d"; "Images"], Dir);
                (["d"; "Images"; "JPEG"], Dir); (["d"; "Images"; "JPEG"; "photo.JPG"], File 9) ].

Definition demo_env : env :=
  {| clock := fun n => {| tm_year := 2026; tm_mon := 10; tm_mday := 18;
                          tm_hour := 9; tm_min := 5; tm_sec := n |};
     move_fails := fun _ _ => false |}.

(** The same directory where [script.py] cannot be moved. *)
Definition demo_env_locked : env :=
  {| clock := clock demo_env;
     move_fails := fun src _ => bool_decide (src = ["d"; "script.py"]) |}.

(** [/d] where [Images/JPEG] also holds the name [photo.JPG] would get
    at tick 0, and [/d/Notes] is a file. *)
Definition demo_fs_stamped : fsys :=
  <[["d"; "Images"; "JPEG"; "photo_20261018_090500.JPG"] := File 7]> demo_fs.

Definition demo_fs_notes : fsys :=
  list_to_map [ (["d"], Dir); (["d"; "Notes"], File 1); (["d"; "x.txt"], File 2) ].

(* ------------------------------------------------------------------ *)
(** ** [format_size] *)

(** The decimal digits of a non-negative int, prepended to [acc];
    [fuel] bounds the number of digits. *)
Fixpoint str_digits (fuel : nat) (n : Z) (acc : string) : string :=
  match fuel with
  | O => acc
  | S f =>
      let acc' := String (digit_char (Z.to_nat (n mod 10))) acc in
      if (n <? 10)%Z then acc' else str_digits f (n / 10) acc'
  end.

(** [str(n)] for an int: a number below [2 ^ (k + 1)] has at most [k + 1]
    decimal digits. *)
Definition py_str_int (n : Z) : string :=
  if (n <? 0)%Z then "-" +:+ str_digits (S (Z.to_nat (Z.log2 (- n)))) (- n) ""
  else str_digits (S (Z.to_nat (Z.log2 n))) n "".

(** [a / d] rounded to the nearest integer, ties to even ([d > 0]). *)
Definition round_half_even (a d : Z) : Z :=
  let q := (a / d)%Z in
  let r := (a mod d)%Z in
  if (2 * r <? d)%Z then q
  else if (d <? 2 * r)%Z then (q + 1)%Z
  else if Z.even q then q else (q + 1)%Z.

(** The double nearest to a non-negative int (53-bit significand, ties to
    even), as an int. *)
Definition to_double (n : Z) : Z :=
  let e := (Z.log2 n - 52)%Z in
  if (e <=? 0)%Z then n else Z.shiftl (round_half_even n (2 ^ e)) e.

(** A non-negative number of tenths written with one decimal. *)
Definition tenths_str (t : Z) : string :=
  py_str_int (t / 10) +:+ "." +:+ String (digit_char (Z.to_nat (t mod 10))) "".

(** [f"{x:.1f}"] for the double [x = m / 2 ^ s]: the exact binary value
    rounded to one decimal, ties to even. *)
Definition format_1f (m s : Z) : string := tenths_str (round_half_even (10 * m) (2 ^ s)).

(** [format_size(size_bytes)].  [size_bytes / 1024 ** k] is Python's
    correctly rounded true division: the double nearest to [size_bytes],
    scaled by a power of two.  [None] is the [OverflowError] raised when
    the quotient exceeds the largest double. *)
Definition format_size (size_bytes : Z) : option string :=
  if (size_bytes <? 1024)%Z then Some (py_str_int size_bytes +:+ " bytes")
  else if (size_bytes <? 1024 * 1024)%Z
  then Some (format_1f (to_double size_bytes) 10 +:+ " KB")
  else if (size_bytes <? 1024 * 1024 * 1024)%Z
  then Some (format_1f (to_double size_bytes) 20 +:+ " MB")
  else if (2 ^ 1054 <=? to_double size_bytes)%Z then None
  else Some (format_1f (to_double size_bytes) 30 +:+ " GB").

(* ------------------------------------------------------------------ *)
(** ** The candidate lines of the report *)

Definition ends_with_slash (s : string) : bool :=
  match String.get (String.length s - 1) s with
  | Some c => Ascii.eqb c "/"
  | None => false
  end.

(** [os.path.join(a, b)] (posixpath) *)
Definition path_join (a b : string) : string :=
  if is_prefix "/" b then b
  else if String.eqb a "" || ends_with_slash a then a +:+ b
  else a +:+ "/" +:+ b.

(** [full_path] of the line [- {full_path}] written for a candidate. *)
Definition candidate_display (c : candidate) : string :=
  let '(rel_path, file, _, _) := c in
  if negb (String.eqb rel_path "Root Directory") then path_join rel_path file else file.

(* ------------------------------------------------------------------ *)
(** ** [show_menu], [get_directory_path] and [main] *)

(** The characters [int()] treats as white space (Latin-1 code points). *)
Definition py_space (c : ascii) : bool :=
  existsb (Nat.eqb (nat_of_ascii c)) [9; 10; 11; 12; 13; 28; 29; 30; 31; 32; 133; 160]%nat.

Fixpoint skip_space (s : string) : string :=
  match s with
  | String c t => if py_space c then skip_space t else s
  | EmptyString => EmptyString
  end.

(** Decimal digits with single underscores between digits: [seen] tells
    whether a digit was read, [after_us] whether the last character read
    was an underscore. *)
Fixpoint read_digits (s : string) (acc : Z) (seen after_us : bool) : option (Z * string) :=
  match s with
  | String c t =>
      if is_digit c
      then read_digits t (10 * acc + Z.of_nat (nat_of_ascii c - 48))%Z true false
      else if Ascii.eqb c "_" && seen && negb after_us then read_digits t acc seen true
      else if seen && negb after_us then Some (acc, s) else None
  | EmptyString => if seen && negb after_us then Some (acc, EmptyString) else None
  end.

(** [int(s)] in base 10: white space around, an optional sign, decimal
    digits with single underscores between them; [None] is the
    [ValueError]. *)
Definition py_int (s : string) : option Z :=
  let s1 := skip_space s in
  let '(sign, s2) :=
    match s1 with
    | String c t =>
        if Ascii.eqb c "-" then ((-1)%Z, t)
        else if Ascii.eqb c "+" then (1%Z, t) else (1%Z, s1)
    | EmptyString => (1%Z, s1)
    end in
  match read_digits s2 0 false false with
  | Some (v, rest) => if String.eqb (skip_space rest) "" then Some (sign * v)%Z else None
  | None => None
  end.

(** [show_menu()] reading the lines [inputs]: the choice and the lines
    left; [None] is the [EOFError] of [input()] on a closed input. *)
Fixpoint show_menu (inputs : list string) : option (Z * list string) :=
  match inputs with
  | [] => None
  | s :: rest =>
      match py_int s with
      | Some choice => if (1 <=? choice)%Z && (choice <=? 5)%Z then Some (choice, rest)
                       else show_menu rest
      | None => show_menu rest
      end
  end.

(** [get_directory_path()]: [Some (Some d, rest)] returns [d],
    [Some (None, rest)] returns [None]; [None] is the [EOFError].
    [.lower() != 'y'] is decided on ASCII case folding, which is exact for
    the comparison with ["y"]. *)
Fixpoint get_directory_path (is_valid : string -> bool) (expanduser : string -> string)
    (inputs : list string) : option (option string * list string) :=
  match inputs with
  | [] => None
  | s :: rest =>
      let directory := expanduser s in
      if is_valid directory then Some (Some directory, rest)
      else match rest with
           | [] => None
           | retry :: rest' =>
               if negb (String.eqb (lower retry) "y") then Some (None, rest')
               else get_directory_path is_valid expanduser rest'
           end
  end.

(** The calls [main] makes. *)
Inductive op : Type :=
  | OpOrganize (organize_by_name : bool)
  | OpReport (report_filename : string).

(** How [main] ends: after a command-line run, after "Goodbye", on a
    closed input (the [EOFError] reaches [except Exception]), or on an
    invalid [--directory]. *)
Inductive ending : Type :=
  | Finished
  | Goodbye
  | InputClosed
  | InvalidDirectory.

Definition default_report : string := "file_organization_report.txt".

(** The calls for menu choice or [--mode] [m]. *)
Definition mode_ops (m : Z) (report_filename : string) : list op :=
  if (m =? 1)%Z then [OpOrganize false]
  else if (m =? 2)%Z then [OpOrganize true]
  else if (m =? 3)%Z then [OpReport report_filename]
  else if (m =? 4)%Z then [OpOrganize true; OpReport report_filename]
  else [].

(** The values of [parser.parse_args()]. *)
Record cli_args : Type := {
  arg_directory : option string;
  arg_mode : option Z;
  arg_report : option string }.

Section Main.

(** The state of the machine, read by [os.path.exists] and
    [os.path.isdir] and changed by the calls. *)
Variable world : Type.
Variable is_valid_dir : world -> string -> bool.
Variable expanduser : string -> string.
Variable run_op : world -> op -> string -> world.

(** The calls, in order, on one directory; the calls made are returned. *)
Fixpoint run_ops (w : world) (ops : list op) (directory : string)
  : world * list (op * string) :=
  match ops with
  | [] => (w, [])
  | o :: ops' =>
      let '(w', done) := run_ops (run_op w o directory) ops' directory in
      (w', (o, directory) :: done)
  end.

(** The [while True] loop of the interactive mode.  Every round reads at
    least one line, so [S (length inputs)] rounds are never exhausted. *)
Fixpoint interactive (fuel : nat) (w : world) (inputs : list string)
  : world * list (op * string) * ending :=
  match fuel with
  | O => (w, [], InputClosed)
  | S fuel' =>
      match show_menu inputs with
      | None => (w, [], InputClosed)
      | Some (choice, rest) =>
          if (choice =? 5)%Z then (w, [], Goodbye)
          else
            match get_directory_path (is_valid_dir w) expanduser rest with
            | None => (w, [], InputClosed)
            | Some (None, rest') => interactive fuel' w rest'
            | Some (Some directory, rest') =>
                if String.eqb directory "" then interactive fuel' w rest' else
                let '(w', done) := run_ops w (mode_ops choice default_report) directory in
                match rest' with
                | [] => (w', done, InputClosed)
                | another :: rest'' =>
                    if negb (String.eqb (lower another) "y") then (w', done, Goodbye)
                    else
                      let '(w'', done', e) := interactive fuel' w' rest'' in
                      (w'', done ++ done', e)
                end
            end
      end
  end.

(** [main()] after a successful [parse_args()], with the lines [inputs]
    of the standard input. *)
Definition main (a : cli_args) (w : world) (inputs : list string)
  : world * list (op * string) * ending :=
  match arg_directory a, arg_mode a with
  | Some d, Some m =>
      if negb (String.eqb d "") && negb (m =? 0)%Z then
        let directory := expanduser d in
        if negb (is_valid_dir w directory) then (w, [], InvalidDirectory)
        else
          let report_filename :=
            match arg_report a with
            | Some r => if String.eqb r "" then default_report else r
            | None => default_report
            end in
          let '(w', done) := run_ops w (mode_ops m report_filename) directory in
          (w', done, Finished)
      else interactive (S (List.length inputs)) w inputs
  | _, _ => interactive (S (List.length inputs)) w inputs
  end.

End Main.

(* ================================================================== *)
(** * Properties *)

(* ------------------------------------------------------------------ *)
(** ** Classification *)

Lemma first_name_match_app (pre post : list (regex * string)) (pattern : regex)
    (folder filename : string) :
  Forall (fun pc => re_search pc.1 filename = false) pre ->
  re_search pattern filename = true ->
  first_name_match (pre ++ (pattern, folder) :: post) filename = Some folder.
Proof.
  induction 1 as [|[p c] pre' Hp _ IH]; intros Hm; simpl in *.
  - now rewrite Hm.
  - rewrite Hp. now apply IH.
Qed.

Lemma first_name_match_none (pats : list (regex * string)) (filename : string) :
  Forall (fun pc => re_search pc.1 filename = false) pats ->
  first_name_match pats filename = None.
Proof.
  induction 1 as [|[p c] pats' Hp _ IH]; simpl in *; [done|]. now rewrite Hp.
Qed.

Lemma assoc_lookup_In (k v : string) (m : list (string * string)) :
  NoDup (map fst m) -> In (k, v) m -> assoc_lookup k m = Some v.
Proof.
  induction m as [|[k' v'] m IH]; simpl; [done|].
  intros Hnd [Heq|Hin]; inversion Hnd as [|? ? Hnotin Hnd']; subst.
  - injection Heq as -> ->. now rewrite String.eqb_refl.
  - destruct (String.eqb_spec k k') as [->|Hne]; [|now apply IH].
    exfalso. apply Hnotin. apply list_elem_of_In.
    apply (in_map fst _ (k', v)). exact Hin.
Qed.

Lemma assoc_lookup_notin (k : string) (m : list (string * string)) :
  (forall v, ~ In (k, v) m) -> assoc_lookup k m = None.
Proof.
  induction m as [|[k' v'] m IH]; simpl; intros Hn; [done|].
  destruct (String.eqb_spec k k') as [->|Hne].
  - exfalso. apply (Hn v'). now left.
  - apply IH. intros v Hv. apply (Hn v). now right.
Qed.

Lemma extension_map_keys_unique : NoDup (map fst extension_map).
Proof. apply (bool_decide_unpack _). vm_compute. reflexivity. Qed.

Lemma rfind_aux_spec (c : ascii) (s : string) (i : nat) (acc : option nat) (d : nat) :
  rfind_aux c s i acc = Some d ->
  acc = Some d \/ (i <= d /\ String.get (d - i) s = Some c)%nat.
Proof.
  revert i acc. induction s as [|x t IH]; simpl; intros i acc H; [now left|].
  apply IH in H as [H|[Hle Hget]].
  - destruct (Ascii.eqb_spec x c) as [->|]; [|now left].
    injection H as <-. right. split; [lia|]. now rewrite Nat.sub_diag.
  - right. split; [lia|]. replace (d - i)%nat with (S (d - S i)) by lia. exact Hget.
Qed.

Lemma rfind_get (c : ascii) (s : string) (d : nat) :
  rfind c s = Some d -> String.get d s = Some c.
Proof.
  unfold rfind. intros H. apply rfind_aux_spec in H as [H|[_ H]]; [done|].
  now rewrite Nat.sub_0_r in H.
Qed.

Lemma substring_get_head (d n : nat) (s : string) (c : ascii) :
  (0 < n)%nat -> String.get d s = Some c ->
  exists e, substring d n s = String c e.
Proof.
  revert d n. induction s as [|x t IH]; intros d n Hn Hget; [done|].
  destruct d as [|d]; simpl in *.
  - injection Hget as ->. destruct n as [|n]; [lia|]. eauto.
  - now apply IH.
Qed.

Lemma get_length (d : nat) (s : string) (c : ascii) :
  String.get d s = Some c -> (d < String.length s)%nat.
Proof.
  revert d. induction s as [|x t IH]; intros [|d] H; simpl in *; try done; [lia|].
  apply IH in H. lia.
Qed.

(** The extension returned by [splitext] is empty or starts with a dot. *)
Lemma splitext_ext_shape (p : string) :
  snd (splitext p) = "" \/ exists e, snd (splitext p) = String "." e.
Proof.
  unfold splitext.
  destruct (rfind "." p) as [d|] eqn:Hd; [|now left].
  destruct (_ && _); simpl; [|now left].
  right. apply rfind_get in Hd as Hget.
  apply substring_get_head; [|exact Hget].
  apply get_length in Hget. lia.
Qed.

Lemma lower_dot_shape (s : string) :
  s = "" \/ (exists e, s = String "." e) ->
  lower s = "" \/ exists e, lower s = String "." e.
Proof.
  intros [->|[e ->]]; [now left|]. right. now exists (lower e).
Qed.

Lemma substring_full (e : string) : substring 0 (String.length e) e = e.
Proof. induction e as [|x e IH]; simpl; congruence. Qed.

(** C1: with name matching enabled, the name patterns are tried in their
    declared order and the first one whose regular expression matches
    somewhere in the filename (ignoring case) gives the category; neither
    the later patterns nor the extension table can change the result. *)
Theorem classify_first_name_pattern_wins (filename : string)
    (pre post : list (regex * string)) (pattern : regex) (folder : string) :
  name_patterns = pre ++ (pattern, folder) :: post ->
  Forall (fun pc => re_search pc.1 filename = false) pre ->
  re_search pattern filename = true ->
  classify true filename = folder /\
  (forall (post' : list (regex * string)) (ext_map' : list (string * string)),
      classify_with (pre ++ (pattern, folder) :: post') ext_map' true filename = folder).
Proof.
  intros Htab Hpre Hm. unfold classify.
  assert (Hgen : forall post' ext_map',
             classify_with (pre ++ (pattern, folder) :: post') ext_map' true filename = folder).
  { intros post' ext_map'. unfold classify_with.
    now rewrite (first_name_match_app pre post' pattern folder filename Hpre Hm). }
  split; [rewrite Htab; apply Hgen | exact Hgen].
Qed.

(** "old_backup.txt" matches both "backup|bak" (first) and
    "old|outdated|deprecated" (fourth): it goes to BackupFiles. *)
Lemma classify_first_name_pattern_wins_witness :
  name_patterns = [] ++ (alts ["backup"; "bak"], "BackupFiles") :: tail name_patterns /\
  re_search (alts ["old"; "outdated"; "deprecated"]) "old_backup.txt" = true /\
  classify true "old_backup.txt" = "BackupFiles".
Proof.
  split; [reflexivity|]. split; [reflexivity|].
  apply (classify_first_name_pattern_wins "old_backup.txt" [] (tail name_patterns)
           (alts ["backup"; "bak"]) "BackupFiles"); [reflexivity | constructor | reflexivity].
Defined.

(** C8: when no name pattern is consulted or none matches, the lower-cased
    extension is looked up in the extension table; otherwise the category
    is Other/<extension without the dot>, or Other/No_Extension when the
    filename has no extension (the extension is always empty or dotted). *)
Theorem classify_extension_fallback (organize_by_name : bool) (filename : string) :
  organize_by_name = false \/ Forall (fun pc => re_search pc.1 filename = false) name_patterns ->
  let extension := lower (snd (splitext filename)) in
  (extension = "" \/ exists e, extension = String "." e) /\
  (forall folder, In (extension, folder) extension_map ->
     classify organize_by_name filename = folder) /\
  ((forall folder, ~ In (extension, folder) extension_map) ->
     (extension = "" -> classify organize_by_name filename = "Other/No_Extension") /\
     (forall e, extension = String "." e -> classify organize_by_name filename = "Other/" +:+ e)).
Proof.
  intros Hno extension.
  assert (Hnm : (if organize_by_name then first_name_match name_patterns filename else None) = None).
  { destruct Hno as [->|Hf]; [done|]. destruct organize_by_name; [|done].
    now apply first_name_match_none. }
  unfold classify, classify_with. fold extension. rewrite Hnm.
  split; [apply lower_dot_shape, splitext_ext_shape|]. split.
  - intros folder Hin. now rewrite (assoc_lookup_In _ _ _ extension_map_keys_unique Hin).
  - intros Hnot. rewrite (assoc_lookup_notin _ _ Hnot). split.
    + intros ->. reflexivity.
    + intros e ->. simpl. rewrite Nat.sub_0_r. now rewrite substring_full.
Qed.

Lemma classify_extension_fallback_witness :
  (false = false \/ Forall (fun pc => re_search pc.1 "notes_backup.unknownext" = false) name_patterns) /\
  classify false "notes_backup.unknownext" = "Other/unknownext".
Proof.
  split; [now left|].
  destruct (classify_extension_fallback false "notes_backup.unknownext" (or_introl eq_refl))
    as [_ [_ Hnot]].
  apply (Hnot (fun folder H => ltac:(vm_compute in H; intuition congruence))).
  reflexivity.
Defined.

(* ------------------------------------------------------------------ *)
(** ** Deletion candidates *)

(** The root is labelled "Root Directory", which holds no marker word: the
    marker test on the label is the marker test on the relative path. *)
Lemma marker_hit_label (rel file : string) :
  marker_hit (rel_label rel) file = marker_hit rel file.
Proof.
  unfold rel_label. destruct (String.eqb_spec rel ".") as [->|]; reflexivity.
Qed.

Lemma marker_hit_spec (rel file : string) :
  marker_hit rel file = true <->
  exists m, In m deletion_categories /\
    (contains (lower m) (lower rel) = true \/ contains (lower m) (lower file) = true).
Proof.
  unfold marker_hit. rewrite existsb_exists.
  split; intros [m [Hin Hm]]; exists m; split; try done.
  - now apply orb_true_iff in Hm.
  - now apply orb_true_iff.
Qed.

Lemma marker_hit_false (rel file : string) :
  (forall m, In m deletion_categories -> contains (lower m) (lower rel) = false) ->
  (forall m, In m deletion_categories -> contains (lower m) (lower file) = false) ->
  marker_hit rel file = false.
Proof.
  intros Hr Hf. apply Bool.not_true_iff_false. rewrite marker_hit_spec.
  intros [m [Hin [Hm|Hm]]]; [rewrite Hr in Hm|rewrite Hf in Hm]; done.
Qed.

Lemma is_candidate_spec (rel file : string) (age : Q) :
  is_candidate rel file age = true <-> marker_hit rel file = true \/ (180 < age)%Q.
Proof.
  unfold is_candidate.
  destruct (Qle_bool age 180) eqn:Hle; simpl.
  - apply Qle_bool_iff in Hle. split; [now left|].
    intros [H|H]; [exact H|]. exfalso. apply (Qlt_not_le _ _ H Hle).
  - split; [intros _; right|done].
    apply Qnot_le_lt. intros H. apply Qle_bool_iff in H. congruence.
Qed.

(** C3 (as amended): for a file of the walk whose metadata read succeeds,
    the step of the walk that processes it appends it to the candidate list
    exactly when its relative directory path or its own name contains one
    of the marker words (ignoring case), or its age exceeds 180 days; it
    leaves the list unchanged otherwise.  A file whose metadata read fails
    is never appended, whatever its name and directory. *)
Theorem report_candidate_iff (rel file : string) (st : stat_result)
    (acc : list detail * Z * list candidate) :
  let acc' := report_file (rel_label rel) acc (file, Some st) in
  let cand := (rel_label rel, file, st_size st, file_age st) in
  let cond :=
    (exists m, In m ["TemporaryFiles"; "BackupFiles"; "OldFiles"; "Duplicates";
                     "Downloads"; "Cache"] /\
       (contains (lower m) (lower rel) = true \/ contains (lower m) (lower file) = true))
    \/ (180 < file_age st)%Q in
  (acc'.2 = acc.2 ++ [cand] <-> cond) /\ (acc'.2 = acc.2 \/ acc'.2 = acc.2 ++ [cand]) /\
  (report_file (rel_label rel) acc (file, None)).2 = acc.2.
Proof.
  intros acc' cand cond.
  destruct acc as [[d z] c]. unfold acc', report_file. simpl.
  assert (Hc : is_candidate (rel_label rel) file (file_age st) = true <-> cond).
  { unfold cond. rewrite is_candidate_spec, marker_hit_label, marker_hit_spec.
    reflexivity. }
  destruct (is_candidate (rel_label rel) file (file_age st)) eqn:E.
  - split; [|split; [now right|reflexivity]].
    split; [intros _; now apply Hc|done].
  - split; [|split; [now left|reflexivity]]. split.
    + intros H. exfalso. apply (f_equal (@length _)) in H.
      rewrite length_app in H. simpl in H. lia.
    + intros H. apply Hc in H. discriminate.
Qed.

(** A marker file whose metadata read fails is not a candidate. *)
Lemma report_candidate_iff_counterexample :
  contains (lower "Cache") (lower "cache.txt") = true /\
  r_deletions (report_walk "file_organization_report.txt" [(".", [("cache.txt", None)])]) = [].
Proof. split; reflexivity. Qed.

Lemma no_marker_backup_2023 (m : string) :
  In m deletion_categories -> contains (lower m) (lower "backup_2023.zip") = false.
Proof. intros Hm. repeat destruct Hm as [<-|Hm]; try reflexivity. destruct Hm. Qed.

Lemma no_marker_report_txt (m : string) :
  In m deletion_categories -> contains (lower m) (lower "report.txt") = false.
Proof. intros Hm. repeat destruct Hm as [<-|Hm]; try reflexivity. destruct Hm. Qed.

(** C4 (as amended): in a directory whose relative path holds no marker
    word, "backup_2023.zip" aged 10 days is not flagged (its name holds no
    marker word: "backup" is not "BackupFiles"), "report.txt" aged 200 days
    is flagged, and "report.txt" aged 5 days is not. *)
Theorem deletion_law_examples (rel : string) :
  (forall m, In m deletion_categories -> contains (lower m) (lower rel) = false) ->
  is_candidate (rel_label rel) "backup_2023.zip" 10%Q = false /\
  is_candidate (rel_label rel) "report.txt" 200%Q = true /\
  is_candidate (rel_label rel) "report.txt" 5%Q = false.
Proof.
  intros Hrel. unfold is_candidate. rewrite !marker_hit_label. simpl negb. cbn iota.
  split; [|split]; [| reflexivity |]; apply marker_hit_false; try exact Hrel.
  - exact no_marker_backup_2023.
  - exact no_marker_report_txt.
Qed.

Lemma deletion_law_examples_witness :
  (forall m, In m deletion_categories -> contains (lower m) (lower "Projects/2023") = false) /\
  is_candidate (rel_label "Projects/2023") "backup_2023.zip" 10%Q = false.
Proof.
  assert (H : forall m, In m deletion_categories ->
                        contains (lower m) (lower "Projects/2023") = false).
  { intros m Hm. repeat destruct Hm as [<-|Hm]; try reflexivity. destruct Hm. }
  split; [exact H|]. apply (deletion_law_examples "Projects/2023" H).
Defined.

(** In the root directory, a 10-day-old "backup_2023.zip" is not listed as
    a candidate. *)
Lemma deletion_law_examples_counterexample :
  let st := {| st_size := 100; st_mtime := 0; st_now := 864000 |} in
  (file_age st == 10)%Q /\
  r_deletions (report_walk "file_organization_report.txt"
                 [(".", [("backup_2023.zip", Some st)])]) = [].
Proof. split; reflexivity. Qed.

(** C5: a tree whose only file is an empty "cache.txt": the file is a
    candidate, the total size is 0 and the percentage divides by zero, so
    the report fails with ZeroDivisionError. *)
Theorem report_zero_total_size_divides_by_zero :
  let st := {| st_size := 0; st_mtime := 0; st_now := 0 |} in
  r_total_size (report_walk "file_organization_report.txt" [(".", [("cache.txt", Some st)])]) = 0%Z /\
  r_deletions (report_walk "file_organization_report.txt" [(".", [("cache.txt", Some st)])]) <> [] /\
  generate_report true true "file_organization_report.txt" [(".", [("cache.txt", Some st)])]
  = Raised ZeroDivisionError.
Proof. split; [reflexivity|]. split; [discriminate|reflexivity]. Qed.

(* ------------------------------------------------------------------ *)
(** ** Metadata failures in the walk *)

(** The part of the per-directory accumulator that reaches the summary:
    the directory size and the candidate list. *)
Definition acc_proj (acc : list detail * Z * list candidate) : Z * list candidate :=
  (acc.1.2, acc.2).

Lemma report_file_proj (r : string) (acc acc' : list detail * Z * list candidate)
    (f : string * option stat_result) :
  acc_proj acc = acc_proj acc' ->
  acc_proj (report_file r acc f) = acc_proj (report_file r acc' f).
Proof.
  destruct acc as [[d z] c], acc' as [[d' z'] c'], f as [file [st|]].
  all: unfold acc_proj; simpl; intros H; injection H as -> ->; reflexivity.
Qed.

Lemma fold_report_file_proj (r : string) (l : list (string * option stat_result))
    (acc acc' : list detail * Z * list candidate) :
  acc_proj acc = acc_proj acc' ->
  acc_proj (fold_left (report_file r) l acc) = acc_proj (fold_left (report_file r) l acc').
Proof.
  revert acc acc'. induction l as [|f l IH]; simpl; intros acc acc' H; [done|].
  apply IH. now apply report_file_proj.
Qed.

Lemma report_file_none_proj (r file : string) (acc : list detail * Z * list candidate) :
  acc_proj (report_file r acc (file, None)) = acc_proj acc.
Proof. destruct acc as [[d z] c]. reflexivity. Qed.

Lemma fold_skip_none_proj (r file : string) (l1 l2 : list (string * option stat_result))
    (acc : list detail * Z * list candidate) :
  acc_proj (fold_left (report_file r) (l1 ++ (file, None) :: l2) acc) =
  acc_proj (fold_left (report_file r) (l1 ++ l2) acc).
Proof.
  rewrite !fold_left_app. simpl.
  apply fold_report_file_proj. apply report_file_none_proj.
Qed.

Lemma fold_report_file_details (r : string) (l : list (string * option stat_result))
    (acc : list detail * Z * list candidate) (x : detail) :
  In x acc.1.1 -> In x (fold_left (report_file r) l acc).1.1.
Proof.
  revert acc. induction l as [|[file [st|]] l IH]; simpl; intros [[d z] c] H; [done| |];
    apply IH; simpl in *; apply in_or_app; now left.
Qed.

Lemma insert_desc_In {A} (key : A -> Z) (x y : A) (l : list A) :
  In y (insert_desc key x l) <-> y = x \/ In y l.
Proof.
  induction l as [|z l IH]; simpl; [intuition congruence|].
  destruct (key x <=? key z)%Z; simpl; [rewrite IH|]; intuition congruence.
Qed.

Lemma fold_insert_desc_In {A} (key : A -> Z) (y : A) (l acc : list A) :
  In y (fold_left (fun acc x => insert_desc key x acc) l acc) <-> In y acc \/ In y l.
Proof.
  revert acc. induction l as [|x l IH]; simpl; intros acc; [tauto|].
  rewrite IH, insert_desc_In. intuition.
Qed.

(** The stable sort keeps every element. *)
Lemma sort_desc_In {A} (key : A -> Z) (y : A) (l : list A) :
  In y l -> In y (sort_desc key l).
Proof. intros H. unfold sort_desc. apply fold_insert_desc_In. now right. Qed.

(** Two walk states that agree on what the summary reads. *)
Definition summary_agree (s1 s2 : rstate) : Prop :=
  r_deletions s1 = r_deletions s2 /\ r_total_size s1 = r_total_size s2.

Lemma report_dir_agree (rf : string) (s1 s2 : rstate) (d : walk_dir) :
  summary_agree s1 s2 -> summary_agree (report_dir rf s1 d) (report_dir rf s2 d).
Proof.
  intros [Hd Hz]. destruct d as [rel files0]. unfold report_dir.
  destruct (List.filter _ files0) as [|f fs] eqn:Ef; [split; done|].
  pose proof (fold_report_file_proj (rel_label rel) (f :: fs)
                ([], 0%Z, r_deletions s1) ([], 0%Z, r_deletions s2)) as Hp.
  specialize (Hp ltac:(unfold acc_proj; simpl; now rewrite Hd)).
  destruct (fold_left _ (f :: fs) ([], 0%Z, r_deletions s2)) as [[d1 z1] c1].
  destruct (fold_left _ (f :: fs) ([], 0%Z, r_deletions s1)) as [[d2 z2] c2].
  unfold acc_proj in Hp. simpl in Hp. injection Hp as -> ->.
  split; simpl; congruence.
Qed.

Lemma fold_report_dir_agree (rf : string) (w : list walk_dir) (s1 s2 : rstate) :
  summary_agree s1 s2 ->
  summary_agree (fold_left (report_dir rf) w s1) (fold_left (report_dir rf) w s2).
Proof.
  revert s1 s2. induction w as [|d w IH]; simpl; intros s1 s2 H; [done|].
  apply IH. now apply report_dir_agree.
Qed.

Lemma report_dir_skip_none (rf rel file : string) (files1 files2 : list (string * option stat_result))
    (s : rstate) :
  file <> rf ->
  summary_agree (report_dir rf s (rel, files1 ++ (file, None) :: files2))
                (report_dir rf s (rel, files1 ++ files2)).
Proof.
  intros Hne. unfold report_dir.
  rewrite !List.filter_app. simpl.
  assert (Hb : negb (String.eqb file rf) = true).
  { apply negb_true_iff. now apply String.eqb_neq. }
  rewrite Hb.
  set (g1 := List.filter _ files1). set (g2 := List.filter _ files2).
  pose proof (fold_skip_none_proj (rel_label rel) file g1 g2 ([], 0%Z, r_deletions s)) as Hp.
  destruct (fold_left _ (g1 ++ (file, None) :: g2) _) as [[d1 z1] c1] eqn:E1.
  destruct (g1 ++ (file, None) :: g2) as [|x l] eqn:Eg; [now destruct g1|].
  destruct (g1 ++ g2) as [|y l'] eqn:Eg'.
  - simpl in Hp. unfold acc_proj in Hp. simpl in Hp. injection Hp as -> ->.
    split; simpl; [done|lia].
  - destruct (fold_left _ (y :: l') _) as [[d2 z2] c2].
    unfold acc_proj in Hp. simpl in Hp. injection Hp as -> ->.
    split; simpl; done.
Qed.

Lemma generate_report_agree (dir_exists open_ok : bool) (rf : string) (w w' : list walk_dir) :
  summary_agree (report_walk rf w) (report_walk rf w') ->
  outcome_savings (generate_report dir_exists open_ok rf w) =
  outcome_savings (generate_report dir_exists open_ok rf w').
Proof.
  intros [Hd Hz]. unfold generate_report.
  destruct dir_exists, open_ok; simpl; try reflexivity.
  rewrite Hd, Hz. destruct (r_deletions (report_walk rf w')); [reflexivity|].
  destruct (py_div _ _); reflexivity.
Qed.

(** C9: a file whose size or modification time cannot be read is still
    listed in its directory's section with size 0, time 0 and age 0, but it
    is never a deletion candidate: the candidate list, the total size and
    the potential savings of the report are those of the same walk without
    that file. *)
Theorem report_stat_failure_not_candidate (rf rel file : string)
    (w1 w2 : list walk_dir) (files1 files2 : list (string * option stat_result)) (s : rstate) :
  file <> rf ->
  let w := w1 ++ (rel, files1 ++ (file, None) :: files2) :: w2 in
  let w' := w1 ++ (rel, files1 ++ files2) :: w2 in
  (exists sec, r_sections (report_dir rf s (rel, files1 ++ (file, None) :: files2))
               = r_sections s ++ [(rel_label rel, sec)] /\ In (file, 0%Z, 0%Q, 0%Q) sec) /\
  r_deletions (report_walk rf w) = r_deletions (report_walk rf w') /\
  r_total_size (report_walk rf w) = r_total_size (report_walk rf w') /\
  (forall dir_exists open_ok,
     outcome_savings (generate_report dir_exists open_ok rf w) =
     outcome_savings (generate_report dir_exists open_ok rf w')).
Proof.
  intros Hne w w'.
  assert (Hag : summary_agree (report_walk rf w) (report_walk rf w')).
  { unfold report_walk, w, w'. rewrite !fold_left_app. simpl.
    apply fold_report_dir_agree. apply report_dir_skip_none. exact Hne. }
  split; [|split; [apply Hag|split; [apply Hag|]]].
  - unfold report_dir. rewrite List.filter_app. simpl.
    assert (Hb : negb (String.eqb file rf) = true).
    { apply negb_true_iff. now apply String.eqb_neq. }
    rewrite Hb.
    set (g1 := List.filter _ files1). set (g2 := List.filter _ files2).
    assert (Hin : In (file, 0%Z, 0%Q, 0%Q)
                    (fold_left (report_file (rel_label rel)) (g1 ++ (file, None) :: g2)
                       ([], 0%Z, r_deletions s)).1.1).
    { rewrite fold_left_app. simpl.
      apply fold_report_file_details.
      destruct (fold_left _ g1 _) as [[d z] c]. simpl. apply in_or_app. right. now left. }
    destruct (g1 ++ (file, None) :: g2) as [|x l] eqn:Eg; [now destruct g1|].
    destruct (fold_left _ (x :: l) _) as [[d z] c]. simpl in Hin.
    eexists. split; [reflexivity|]. now apply sort_desc_In.
  - intros de ok. now apply generate_report_agree.
Qed.

Lemma report_stat_failure_not_candidate_witness :
  "cache.txt" <> "file_organization_report.txt" /\
  r_deletions (report_walk "file_organization_report.txt"
                 [(".", [("cache.txt", None)])]) =
  r_deletions (report_walk "file_organization_report.txt" [(".", [])]).
Proof.
  assert (Hne : "cache.txt" <> "file_organization_report.txt") by discriminate.
  split; [exact Hne|].
  exact (proj1 (proj2 (report_stat_failure_not_candidate "file_organization_report.txt"
                          "." "cache.txt" [] [] [] [] report_init Hne))).
Defined.

(* ------------------------------------------------------------------ *)
(** ** Organizer: shape of the destination paths *)

Lemma split_on_not_nil (c : ascii) (s : string) : split_on c s <> [].
Proof.
  induction s as [|x t IH]; simpl; [discriminate|].
  destruct (split_on c t); [done|]. destruct (Ascii.eqb x c); discriminate.
Qed.

Lemma components_other (x : string) : components ("Other/" +:+ x) = "Other" :: components x.
Proof.
  unfold components. simpl. change ("" +:+ x) with x.
  destruct (split_on "/" x) as [|w ws] eqn:E; [now apply split_on_not_nil in E|].
  reflexivity.
Qed.

Lemma first_name_match_value (pats : list (regex * string)) (filename folder : string) :
  first_name_match pats filename = Some folder -> In folder (map snd pats).
Proof.
  induction pats as [|[p c] pats IH]; simpl; [done|].
  destruct (re_search p filename); [intros [= ->]; now left|].
  intros H. right. now apply IH.
Qed.

Lemma assoc_lookup_value (k v : string) (m : list (string * string)) :
  assoc_lookup k m = Some v -> In v (map snd m).
Proof.
  induction m as [|[k' v'] m IH]; simpl; [done|].
  destruct (String.eqb k k'); [intros [= ->]; now left|].
  intros H. right. now apply IH.
Qed.

Definition comps_nonempty (s : string) : bool :=
  match components s with [] => false | _ => true end.

(** Every category folder lies strictly below the organized directory. *)
Lemma components_classify (organize_by_name : bool) (filename : string) :
  components (classify organize_by_name filename) <> [].
Proof.
  assert (Hn : forallb comps_nonempty (map snd name_patterns) = true) by reflexivity.
  assert (He : forallb comps_nonempty (map snd extension_map) = true) by reflexivity.
  rewrite forallb_forall in Hn, He.
  assert (Hc : forall s, comps_nonempty s = true -> components s <> []).
  { intros s. unfold comps_nonempty. destruct (components s); congruence. }
  unfold classify, classify_with.
  destruct (if organize_by_name then _ else None) as [folder|] eqn:Em.
  - apply Hc, Hn. destruct organize_by_name; [|done].
    now apply first_name_match_value in Em.
  - destruct (assoc_lookup _ _) as [folder|] eqn:Ea.
    + apply Hc, He. now apply assoc_lookup_value in Ea.
    + rewrite components_other. discriminate.
Qed.

Lemma makedirs_from_lookup (fs : fsys) (pre rest : path) (p : path) :
  (makedirs_from fs pre rest).1 !! p = fs !! p \/
  (fs !! p = None /\ (makedirs_from fs pre rest).1 !! p = Some Dir).
Proof.
  revert fs pre. induction rest as [|c rest IH]; simpl; intros fs pre; [now left|].
  destruct (fs !! (pre ++ [c])) as [[n|]|] eqn:E; simpl; [now left|apply IH|].
  destruct (IH (<[pre ++ [c] := Dir]> fs) (pre ++ [c])) as [H|[H1 H2]].
  - rewrite H. destruct (decide (pre ++ [c] = p)) as [<-|Hne].
    + rewrite lookup_insert_eq. now right.
    + rewrite lookup_insert_ne by done. now left.
  - destruct (decide (pre ++ [c] = p)) as [<-|Hne].
    + rewrite lookup_insert_eq in H1. discriminate.
    + rewrite lookup_insert_ne in H1 by done. now right.
Qed.

(** [os.makedirs] only creates directories where nothing was. *)
Lemma makedirs_keeps (fs : fsys) (p q : path) (x : entry) :
  fs !! q = Some x -> (makedirs fs p).1 !! q = Some x.
Proof.
  intros H. destruct (makedirs_from_lookup fs [] p q) as [H'|[H' _]]; unfold makedirs.
  - now rewrite H'.
  - congruence.
Qed.


(** Where [shutil.move] puts the file: at [dst], or inside it. *)
Lemma shutil_move_spec (e : env) (fs fs' : fsys) (src dst real : path) :
  shutil_move e fs src dst = Some (fs', real) ->
  (real = dst \/ real = dst ++ [List.last src ""]) /\
  exists ent, fs !! src = Some ent /\ fs' = <[real := ent]> (delete src fs).
Proof.
  unfold shutil_move.
  destruct (_ || _); [done|].
  destruct (fs !! src) as [ent|]; [|done].
  intros [= <- <-]. split; [|eauto].
  destruct (path_isdir fs dst); [now right|now left].
Qed.

Lemma digit_char_ok (d : nat) : (d < 10)%nat -> is_digit (digit_char d) = true.
Proof. intros H. do 10 (destruct d as [|d]; [reflexivity|]). lia. Qed.

Lemma div_lt_10 (n k : nat) : (n < 10 * k)%nat -> (n / k < 10)%nat.
Proof. intros H. apply Nat.Div0.div_lt_upper_bound. lia. Qed.

Lemma mod_lt_10 (n : nat) : (n mod 10 < 10)%nat.
Proof. apply Nat.mod_upper_bound. lia. Qed.

Lemma ts_token_digits (a b c d e f g h i j k l m n : ascii) :
  forallb is_digit [a; b; c; d; e; f; g; h; i; j; k; l; m; n] = true ->
  ts_token (String "_" (String a (String b (String c (String d (String e (String f
           (String g (String h (String "_" (String i (String j (String k (String l
           (String m (String n EmptyString)))))))))))))))) = true.
Proof.
  simpl. intros H. repeat (apply andb_prop in H as [? H]).
  unfold ts_token. simpl.
  repeat match goal with Hd : is_digit _ = true |- _ => rewrite Hd; clear Hd end.
  reflexivity.
Qed.

(** [strftime("_%Y%m%d_%H%M%S")] yields a fourteen-digit token. *)
Lemma strftime_ts_token (t : tm) : valid_tm t -> ts_token (strftime_ts t) = true.
Proof.
  intros (Hy & Hmo & Hd & Hh & Hmi & Hs).
  assert (Hy' : (tm_year t < 10 * 1000)%nat).
  { eapply Nat.le_lt_trans; [apply Hy|]. apply Nat.ltb_lt. vm_compute. reflexivity. }
  unfold strftime_ts, pad4, pad2. apply ts_token_digits.
  cbn [forallb].
  rewrite !digit_char_ok; try apply mod_lt_10; try apply div_lt_10; try lia.
  all: reflexivity.
Qed.

Lemma length_append (a b : string) : String.length (a +:+ b) = (String.length a + String.length b)%nat.
Proof. induction a as [|x a IH]; simpl; [reflexivity|congruence]. Qed.

Lemma append_cons (c : ascii) (s t : string) : String c s +:+ t = String c (s +:+ t).
Proof. reflexivity. Qed.

Lemma append_empty_r (s : string) : s +:+ "" = s.
Proof. induction s as [|c s IH]; [reflexivity|]. rewrite append_cons. congruence. Qed.

Lemma substring_split (s : string) (d : nat) :
  (d <= String.length s)%nat ->
  substring 0 d s +:+ substring d (String.length s - d) s = s.
Proof.
  revert d. induction s as [|x t IH]; intros d Hd; simpl in *.
  - destruct d; reflexivity.
  - destruct d as [|d].
    + simpl. change ("" +:+ ?s) with s. f_equal. apply substring_full.
    + simpl. rewrite append_cons. f_equal. apply IH. lia.
Qed.

(** [base + ext == filename] for [base, ext = os.path.splitext(filename)]. *)
Lemma splitext_concat (p : string) : fst (splitext p) +:+ snd (splitext p) = p.
Proof.
  unfold splitext.
  destruct (rfind "." p) as [d|] eqn:Hd; [|apply append_empty_r].
  destruct (_ && _); simpl; [|apply append_empty_r].
  apply substring_split. apply rfind_get, get_length in Hd. lia.
Qed.

Lemma ts_token_length (s : string) : ts_token s = true -> String.length s = 16%nat.
Proof.
  unfold ts_token. intros H. repeat apply andb_prop in H as [H ?].
  now apply Nat.eqb_eq.
Qed.

Lemma app_single_neq (p : path) (a b : string) : a <> b -> p ++ [a] <> p ++ [b].
Proof. intros Hab H. apply app_inj_tail in H as [_ H]. congruence. Qed.

Lemma path_longer_neq (p q : path) : List.length p <> List.length q -> p <> q.
Proof. intros H ->. done. Qed.

(** The destination chosen on a collision, as a function of the file
    system after [os.makedirs]. *)
Lemma collision_target_taken (now : tm) (fs : fsys) (tf : path) (filename : string) :
  path_exists fs (tf ++ [filename]) = true ->
  collision_target now fs tf filename
  = tf ++ [fst (splitext filename) +:+ strftime_ts now +:+ snd (splitext filename)].
Proof.
  intros H. unfold collision_target. rewrite H. now destruct (splitext filename).
Qed.

(** C2: when the computed destination already exists, the incoming file
    is sent to [base + "_YYYYMMDD_HHMMSS" + ext] in the same folder, where
    [base + ext] is the filename and the inserted token has fourteen digits;
    whatever the outcome of the iteration (move done, move failed, or
    [os.makedirs] raised), the entry at the original destination is the
    one that was there before. *)
Theorem collision_inserts_timestamp (e : env) (directory : path) (organize_by_name : bool)
    (st : ostate) (filename : string) (c : nat) :
  valid_tm (clock e (o_tick st)) ->
  o_fs st !! (directory ++ [filename]) = Some (File c) ->
  let target_folder := directory ++ components (classify organize_by_name filename) in
  let original := target_folder ++ [filename] in
  path_exists (o_fs st) original = true ->
  let ts := strftime_ts (clock e (o_tick st)) in
  ts_token ts = true /\
  fst (splitext filename) +:+ snd (splitext filename) = filename /\
  (forall fs1, makedirs (o_fs st) target_folder = (fs1, true) ->
     collision_target (clock e (o_tick st)) fs1 target_folder filename
     = target_folder ++ [fst (splitext filename) +:+ ts +:+ snd (splitext filename)]) /\
  (forall st', process_entry e directory organize_by_name st filename = inl st' \/
               process_entry e directory organize_by_name st filename = inr st' ->
     o_fs st' !! original = o_fs st !! original).
Proof.
  intros Hvalid Hsrc target_folder original Hex ts.
  assert (Htok : ts_token ts = true) by now apply strftime_ts_token.
  assert (Hcat := splitext_concat filename).
  assert (Hx : exists x, o_fs st !! original = Some x).
  { unfold path_exists in Hex. destruct (o_fs st !! original); [eauto|discriminate]. }
  destruct Hx as [x Ho].
  assert (Hkeep : forall fs1 ok, makedirs (o_fs st) target_folder = (fs1, ok) -> fs1 !! original = Some x).
  { intros fs1 ok Hm. pose proof (makedirs_keeps (o_fs st) target_folder original x Ho) as Hk.
    now rewrite Hm in Hk. }
  assert (Htarget : forall fs1, makedirs (o_fs st) target_folder = (fs1, true) ->
     collision_target (clock e (o_tick st)) fs1 target_folder filename
     = target_folder ++ [fst (splitext filename) +:+ ts +:+ snd (splitext filename)]).
  { intros fs1 Hm. apply collision_target_taken.
    unfold path_exists. fold original. now rewrite (Hkeep fs1 true Hm). }
  split; [exact Htok|]. split; [exact Hcat|]. split; [exact Htarget|].
  (* the original destination is neither the source nor the new name *)
  assert (Hns : directory ++ [filename] <> original).
  { apply path_longer_neq. unfold original, target_folder. rewrite !length_app.
    pose proof (components_classify organize_by_name filename) as Hc.
    destruct (components _); [done|]. simpl. lia. }
  assert (Hname : fst (splitext filename) +:+ ts +:+ snd (splitext filename) <> filename).
  { intros H. apply (f_equal String.length) in H.
    pose proof (f_equal String.length Hcat) as Hl.
    rewrite !length_append, (ts_token_length _ Htok) in H. rewrite length_append in Hl. lia. }
  intros st' Hst'. rewrite Ho.
  unfold process_entry in Hst'.
  assert (Hnd : path_isdir (o_fs st) (directory ++ [filename]) = false).
  { unfold path_isdir. now rewrite Hsrc. }
  rewrite Hnd in Hst'. fold target_folder in Hst'.
  destruct (makedirs (o_fs st) target_folder) as [fs1 ok] eqn:Hm.
  destruct ok; simpl in Hst'.
  - rewrite (Htarget fs1 eq_refl) in Hst'.
    destruct (shutil_move e fs1 _ _) as [[fs2 real]|] eqn:Hmv;
      destruct Hst' as [Hst'|Hst']; try discriminate; injection Hst' as <-; simpl.
    + apply shutil_move_spec in Hmv as [Hreal [ent [_ ->]]].
      rewrite lookup_insert_ne.
      * rewrite lookup_delete_ne by done. exact (Hkeep fs1 true eq_refl).
      * destruct Hreal as [->| ->].
        -- apply app_single_neq. exact Hname.
        -- apply path_longer_neq. unfold original. rewrite !length_app. simpl. lia.
    + exact (Hkeep fs1 true eq_refl).
  - destruct Hst' as [Hst'|Hst']; [discriminate|]. injection Hst' as <-. simpl.
    exact (Hkeep fs1 false eq_refl).
Qed.

Lemma collision_inserts_timestamp_witness :
  let st := init_state demo_fs in
  valid_tm (clock demo_env (o_tick st)) /\
  o_fs st !! (["d"] ++ ["photo.JPG"]) = Some (File 1) /\
  path_exists (o_fs st) ((["d"] ++ components (classify false "photo.JPG")) ++ ["photo.JPG"]) = true /\
  ts_token (strftime_ts (clock demo_env (o_tick st))) = true.
Proof.
  intros st.
  assert (Hv : valid_tm (clock demo_env (o_tick st))).
  { repeat split; apply Nat.leb_le; vm_compute; reflexivity. }
  assert (Hs : o_fs st !! (["d"] ++ ["photo.JPG"]) = Some (File 1)) by (vm_compute; reflexivity).
  assert (He : path_exists (o_fs st) ((["d"] ++ components (classify false "photo.JPG")) ++ ["photo.JPG"]) = true)
    by (vm_compute; reflexivity).
  split; [exact Hv|]. split; [exact Hs|]. split; [exact He|].
  exact (proj1 (collision_inserts_timestamp demo_env ["d"] false st "photo.JPG" 1 Hv Hs He)).
Defined.

(* ------------------------------------------------------------------ *)
(** ** Organizer: the loop *)

(** An invariant of one iteration (normal or exceptional exit) holds at
    the end of the loop. *)
Lemma organize_loop_invariant (P : ostate -> Prop) (e : env) (directory : path)
    (organize_by_name : bool) (names : list string) (st : ostate) :
  (forall st0 n st', P st0 ->
     process_entry e directory organize_by_name st0 n = inl st' \/
     process_entry e directory organize_by_name st0 n = inr st' -> P st') ->
  P st -> P (fst (organize_loop e directory organize_by_name st names)).
Proof.
  intros Hstep. revert st. induction names as [|n names IH]; intros st Hst; simpl; [done|].
  destruct (process_entry e directory organize_by_name st n) as [st'|st'] eqn:E; simpl.
  - apply IH. eapply Hstep; [exact Hst|]. left. exact E.
  - eapply Hstep; [exact Hst|]. right. exact E.
Qed.

Lemma organize_run_invariant (P : ostate -> Prop) (e : env) (fs : fsys) (directory : path)
    (organize_by_name : bool) :
  (forall st0 n st', P st0 ->
     process_entry e directory organize_by_name st0 n = inl st' \/
     process_entry e directory organize_by_name st0 n = inr st' -> P st') ->
  P (init_state fs) -> P (fst (organize_run e fs directory organize_by_name)).
Proof.
  intros Hstep Hinit. unfold organize_run.
  destruct (path_isdir fs directory); [|exact Hinit].
  now apply organize_loop_invariant.
Qed.

(** Every iteration logs exactly one event, about the entry it examines. *)
Lemma process_entry_log (e : env) (directory : path) (organize_by_name : bool)
    (st st' : ostate) (n : string) :
  process_entry e directory organize_by_name st n = inl st' \/
  process_entry e directory organize_by_name st n = inr st' ->
  exists ev, o_log st' = o_log st ++ [ev] /\ event_name ev = n /\
    o_moved st' = (o_moved st + match ev with EvMoved _ _ => 1 | _ => 0 end)%nat.
Proof.
  unfold process_entry.
  destruct (path_isdir _ _).
  { intros [H|H]; try discriminate; injection H as <-; eexists; simpl; repeat split; lia. }
  destruct (makedirs _ _) as [fs1 ok]. destruct ok; simpl.
  - destruct (shutil_move _ _ _ _) as [[fs2 real]|];
      intros [H|H]; try discriminate; injection H as <-; eexists; simpl; repeat split; lia.
  - intros [H|H]; [discriminate|]. injection H as <-. eexists; simpl; repeat split; lia.
Qed.

Lemma count_moved_app (l : list event) (ev : event) :
  count_moved (l ++ [ev]) = (count_moved l + match ev with EvMoved _ _ => 1 | _ => 0 end)%nat.
Proof.
  unfold count_moved. rewrite List.filter_app, length_app. destruct ev; reflexivity.
Qed.

Lemma organize_loop_names (e : env) (directory : path) (organize_by_name : bool)
    (names : list string) (st : ostate) :
  exists k, map event_name (o_log (fst (organize_loop e directory organize_by_name st names)))
            = map event_name (o_log st) ++ firstn k names.
Proof.
  revert st. induction names as [|n names IH]; intros st; simpl.
  - exists 0%nat. now rewrite app_nil_r.
  - destruct (process_entry e directory organize_by_name st n) as [st'|st'] eqn:E.
    + destruct (process_entry_log e directory organize_by_name st st' n (or_introl E))
        as [ev [Hlog [Hn _]]].
      destruct (IH st') as [k Hk]. exists (S k). rewrite Hk, Hlog, map_app, <- app_assoc.
      simpl. now rewrite Hn.
    + destruct (process_entry_log e directory organize_by_name st st' n (or_intror E))
        as [ev [Hlog [Hn _]]].
      exists 1%nat. simpl. rewrite Hlog, map_app. simpl. now rewrite Hn.
Qed.

Lemma strip_prefix_app (p k r : path) : strip_prefix p k = Some r -> k = p ++ r.
Proof.
  revert k. induction p as [|x p IH]; intros [|y k]; simpl; try congruence.
  destruct (String.eqb_spec x y) as [->|]; [|done].
  intros H. f_equal. now apply IH.
Qed.

Lemma strip_prefix_self (p : path) (n : string) : strip_prefix p (p ++ [n]) = Some [n].
Proof. induction p as [|x p IH]; simpl; [done|]. now rewrite String.eqb_refl. Qed.

Lemma child_name_spec (dir k : path) (n : string) :
  child_name dir k = Some n <-> k = dir ++ [n].
Proof.
  unfold child_name. split.
  - destruct (strip_prefix dir k) as [[|m [|]]|] eqn:E; try discriminate.
    intros [= ->]. now apply strip_prefix_app.
  - intros ->. now rewrite strip_prefix_self.
Qed.


Lemma NoDup_omap_child (dir : path) (l : list (path * entry)) :
  NoDup l.*1 -> NoDup (omap (fun kv : path * entry => child_name dir kv.1) l).
Proof.
  induction l as [|[k x] l IH]; simpl; intros Hnd; [constructor|].
  apply NoDup_cons in Hnd as [Hk Hnd].
  destruct (child_name dir k) as [n|] eqn:E; [|now apply IH].
  constructor; [|now apply IH].
  rewrite list_elem_of_omap. intros [[k' x'] [Hin Hc]]. simpl in Hc.
  apply child_name_spec in Hc. apply child_name_spec in E. subst.
  apply Hk. apply list_elem_of_fmap. exists (dir ++ [n], x'). split; [done|exact Hin].
Qed.

(** [os.listdir] names each child once. *)
Lemma NoDup_listdir (fs : fsys) (dir : path) : NoDup (listdir fs dir).
Proof. apply NoDup_omap_child, NoDup_fst_map_to_list. Qed.

(** C6: when [shutil.move] raises for one file, the iteration logs the
    error, keeps the count, and the loop goes on with the next entry of the
    listing exactly as from a normal iteration; and for every run the
    returned count is the number of moves that succeeded (one [EvMoved]
    event is logged per successful [shutil.move], and only then). *)
Theorem move_failure_continues (e : env) (directory : path) (organize_by_name : bool)
    (st : ostate) (filename : string) (rest : list string) (fs1 : fsys) :
  path_isdir (o_fs st) (directory ++ [filename]) = false ->
  let target_folder := directory ++ components (classify organize_by_name filename) in
  makedirs (o_fs st) target_folder = (fs1, true) ->
  shutil_move e fs1 (directory ++ [filename])
    (collision_target (clock e (o_tick st)) fs1 target_folder filename) = None ->
  organize_loop e directory organize_by_name st (filename :: rest) =
  organize_loop e directory organize_by_name
    {| o_fs := fs1; o_moved := o_moved st;
       o_log := o_log st ++ [EvMoveError filename]; o_tick := S (o_tick st) |} rest /\
  (forall fs : fsys,
     let st' := fst (organize_run e fs directory organize_by_name) in
     o_moved st' = count_moved (o_log st') /\
     snd (organize_files e fs directory organize_by_name) = count_moved (o_log st')).
Proof.
  intros Hnd target_folder Hm Hmv. split.
  - simpl. unfold process_entry. rewrite Hnd. fold target_folder. rewrite Hm. simpl.
    now rewrite Hmv.
  - intros fs st'.
    assert (H : o_moved st' = count_moved (o_log st')).
    { apply (organize_run_invariant (fun s => o_moved s = count_moved (o_log s))); [|done].
      intros st0 n st1 Hinv Hstep.
      destruct (process_entry_log e directory organize_by_name st0 st1 n Hstep)
        as [ev [Hlog [_ Hmoved]]].
      rewrite Hlog, Hmoved, count_moved_app, Hinv. reflexivity. }
    split; [exact H|]. exact H.
Qed.

(** [script.py] cannot be moved; the two other files of the listing after
    it are still moved. *)
Lemma move_failure_continues_witness :
  let st := {| o_fs := demo_fs; o_moved := 0; o_log := []; o_tick := 0 |} in
  let fs1 := (makedirs demo_fs (["d"] ++ components (classify true "script.py"))).1 in
  path_isdir demo_fs (["d"] ++ ["script.py"]) = false /\
  makedirs demo_fs (["d"] ++ components (classify true "script.py")) = (fs1, true) /\
  shutil_move demo_env_locked fs1 (["d"] ++ ["script.py"])
    (collision_target (clock demo_env_locked 0) fs1
       (["d"] ++ components (classify true "script.py")) "script.py") = None /\
  organize_loop demo_env_locked ["d"] true st ["script.py"; "notes_backup.txt"; "unknown.xyz"] =
  organize_loop demo_env_locked ["d"] true
    {| o_fs := fs1; o_moved := 0; o_log := [EvMoveError "script.py"]; o_tick := 1 |}
    ["notes_backup.txt"; "unknown.xyz"].
Proof.
  intros st fs1.
  assert (H1 : path_isdir demo_fs (["d"] ++ ["script.py"]) = false) by (vm_compute; reflexivity).
  assert (H2 : makedirs demo_fs (["d"] ++ components (classify true "script.py")) = (fs1, true))
    by (vm_compute; reflexivity).
  assert (H3 : shutil_move demo_env_locked fs1 (["d"] ++ ["script.py"])
                 (collision_target (clock demo_env_locked 0) fs1
                    (["d"] ++ components (classify true "script.py")) "script.py") = None)
    by (vm_compute; reflexivity).
  split; [exact H1|]. split; [exact H2|]. split; [exact H3|].
  exact (proj1 (move_failure_continues demo_env_locked ["d"] true st "script.py"
                  ["notes_backup.txt"; "unknown.xyz"] fs1 H1 H2 H3)).
Defined.

(** C10: the directory is listed once, before the loop; the entries
    examined by the run are, in order, a prefix of that listing, and no
    name is examined (hence moved) twice. *)
Theorem organize_examines_listing_once (e : env) (fs : fsys) (directory : path)
    (organize_by_name : bool) :
  let st := fst (organize_run e fs directory organize_by_name) in
  let listing := if path_isdir fs directory then listdir fs directory else [] in
  (exists rest, map event_name (o_log st) ++ rest = listing) /\
  NoDup (map event_name (o_log st)) /\
  NoDup (omap (fun ev => match ev with EvMoved n _ => Some n | _ => None end) (o_log st)).
Proof.
  intros st listing.
  assert (Hpre : exists k, map event_name (o_log st) = firstn k listing).
  { unfold st, listing, organize_run.
    destruct (path_isdir fs directory).
    - destruct (organize_loop_names e directory organize_by_name (listdir fs directory)
                  (init_state fs)) as [k Hk].
      exists k. exact Hk.
    - exists 0%nat. reflexivity. }
  destruct Hpre as [k Hk].
  assert (Hnd : NoDup listing).
  { unfold listing. destruct (path_isdir fs directory); [apply NoDup_listdir|constructor]. }
  assert (Hnd' : NoDup (map event_name (o_log st))).
  { rewrite Hk. rewrite <- (firstn_skipn k listing) in Hnd.
    now apply NoDup_app in Hnd as [? _]. }
  split; [exists (skipn k listing); rewrite Hk; apply firstn_skipn|]. split; [exact Hnd'|].
  clear Hk Hnd. induction (o_log st) as [|ev l IH]; simpl in *; [constructor|].
  apply NoDup_cons in Hnd' as [Hev Hl].
  destruct ev as [n|n dst|n|n]; simpl; try now apply IH.
  constructor; [|now apply IH].
  rewrite list_elem_of_omap. intros [ev' [Hin Hs]]. apply Hev.
  destruct ev' as [|m d| |]; try discriminate. injection Hs as ->.
  apply list_elem_of_fmap. exists (EvMoved n d). split; [done|exact Hin].
Qed.

(* ------------------------------------------------------------------ *)
(** ** Organizer: a second run *)








(* ------------------------------------------------------------------ *)
(** ** The stable sort of the report *)

Section SortDesc.

Context {A : Type} (key : A -> Z).

(** [b] may follow [a] in a list sorted largest first. *)
Definition desc (a b : A) : Prop := (key b <= key a)%Z.

Definition with_key (z : Z) (a : A) : bool := (key a =? z)%Z.

Lemma insert_desc_perm (x : A) (l : list A) : Permutation (insert_desc key x l) (x :: l).
Proof.
  induction l as [|y l IH]; simpl; [done|].
  destruct (key x <=? key y)%Z; [|done].
  rewrite IH. apply perm_swap.
Qed.

Lemma fold_insert_desc_perm (l acc : list A) :
  Permutation (fold_left (fun acc x => insert_desc key x acc) l acc) (l ++ acc).
Proof.
  revert acc. induction l as [|x l IH]; intros acc; simpl; [done|].
  rewrite IH, insert_desc_perm. symmetry. apply Permutation_middle.
Qed.

Lemma sort_desc_perm (l : list A) : Permutation (sort_desc key l) l.
Proof. unfold sort_desc. rewrite fold_insert_desc_perm. now rewrite app_nil_r. Qed.

Lemma insert_desc_sorted (x : A) (l : list A) :
  Sorted desc l -> Sorted desc (insert_desc key x l).
Proof.
  induction 1 as [|y l Hl IH Hhd]; simpl; [repeat constructor|].
  destruct (key x <=? key y)%Z eqn:E.
  - constructor; [exact IH|].
    destruct l as [|y' l]; simpl; [constructor; unfold desc; lia|].
    inversion Hhd as [|? ? Hyy']; subst.
    destruct (key x <=? key y')%Z; constructor; unfold desc in *; lia.
  - constructor; [constructor; [exact Hl|exact Hhd]|]. constructor. unfold desc. lia.
Qed.

Lemma sort_desc_sorted (l : list A) : Sorted desc (sort_desc key l).
Proof.
  unfold sort_desc.
  assert (H : forall acc, Sorted desc acc ->
                Sorted desc (fold_left (fun acc x => insert_desc key x acc) l acc)).
  { induction l as [|x l IH]; intros acc Hacc; simpl; [done|].
    apply IH. now apply insert_desc_sorted. }
  apply H. constructor.
Qed.

Lemma sorted_desc_head (y : A) (l : list A) :
  Sorted desc (y :: l) -> Forall (fun a => (key a <= key y)%Z) l.
Proof.
  intros H. apply Sorted_StronglySorted in H; [|intros a b c; unfold desc; lia].
  apply StronglySorted_inv in H as [_ H]. exact H.
Qed.

Lemma filter_with_key_lt (x : A) (l : list A) :
  Forall (fun a => (key a < key x)%Z) l -> List.filter (with_key (key x)) l = [].
Proof.
  induction 1 as [|a l Ha _ IH]; simpl; [done|].
  unfold with_key at 1. destruct (Z.eqb_spec (key a) (key x)); [lia|exact IH].
Qed.

Lemma insert_desc_filter (x : A) (l : list A) (z : Z) :
  Sorted desc l ->
  List.filter (with_key z) (insert_desc key x l) =
  List.filter (with_key z) l ++ List.filter (with_key z) [x].
Proof.
  intros Hs. induction Hs as [|y l Hl IH Hhd]; [reflexivity|].
  cbn [insert_desc].
  destruct (key x <=? key y)%Z eqn:E.
  - cbn [List.filter]. rewrite IH. destruct (with_key z y); reflexivity.
  - assert (Hall : Forall (fun a => (key a < key x)%Z) (y :: l)).
    { constructor; [lia|].
      eapply Forall_impl; [apply sorted_desc_head; constructor; [exact Hl|exact Hhd]|].
      intros a Ha. simpl in Ha. lia. }
    remember (y :: l) as m eqn:Em. clear Em.
    cbn [List.filter].
    destruct (with_key z x) eqn:Ex.
    + unfold with_key in Ex. apply Z.eqb_eq in Ex. subst z.
      now rewrite (filter_with_key_lt x m Hall).
    + now rewrite app_nil_r.
Qed.

Lemma fold_insert_desc_filter (l acc : list A) (z : Z) :
  Sorted desc acc ->
  List.filter (with_key z) (fold_left (fun acc x => insert_desc key x acc) l acc) =
  List.filter (with_key z) acc ++ List.filter (with_key z) l.
Proof.
  revert acc. induction l as [|x l IH]; intros acc Hacc; simpl fold_left.
  - now rewrite app_nil_r.
  - rewrite IH by now apply insert_desc_sorted.
    rewrite insert_desc_filter by exact Hacc.
    rewrite <- app_assoc. f_equal.
    change (x :: l) with ([x] ++ l). now rewrite List.filter_app.
Qed.

(** Equal keys keep their order. *)
Lemma sort_desc_stable (l : list A) (z : Z) :
  List.filter (with_key z) (sort_desc key l) = List.filter (with_key z) l.
Proof. unfold sort_desc. rewrite fold_insert_desc_filter by constructor. reflexivity. Qed.

End SortDesc.

(* ------------------------------------------------------------------ *)
(** ** The walk of [generate_report] *)

(** [files] of a walk triple, once the report file is filtered out. *)
Definition kept_files (rf : string) (d : walk_dir) : list (string * option stat_result) :=
  List.filter (fun f => negb (String.eqb f.1 rf)) d.2.

(** The [file_details] entry of a file. *)
Definition detail_of (f : string * option stat_result) : detail :=
  match f.2 with
  | Some st => (f.1, st_size st, st_mtime st, file_age st)
  | None => (f.1, 0%Z, 0%Q, 0%Q)
  end.

(** What a file adds to [directory_size]. *)
Definition meta_size (f : string * option stat_result) : Z :=
  match f.2 with Some st => st_size st | None => 0%Z end.

Definition zsum (l : list Z) : Z := fold_right Z.add 0%Z l.

Lemma zsum_app (l1 l2 : list Z) : zsum (l1 ++ l2) = (zsum l1 + zsum l2)%Z.
Proof. induction l1 as [|x l1 IH]; simpl; [done|]. unfold zsum in *. simpl. lia. Qed.

Lemma zsum_perm (l1 l2 : list Z) : Permutation l1 l2 -> zsum l1 = zsum l2.
Proof. induction 1; unfold zsum in *; simpl in *; lia. Qed.

Lemma zsum_cons (x : Z) (l : list Z) : zsum (x :: l) = (x + zsum l)%Z.
Proof. reflexivity. Qed.

Lemma list_sum_cons_eq (x : nat) (l : list nat) : list_sum (x :: l) = (x + list_sum l)%nat.
Proof. reflexivity. Qed.

Lemma fold_left_add (l : list Z) (a : Z) : fold_left Z.add l a = (a + zsum l)%Z.
Proof.
  revert a. induction l as [|x l IH]; intros a; simpl; [lia|].
  rewrite IH. unfold zsum. simpl. lia.
Qed.

Lemma fold_report_file_details_eq (r : string) (l : list (string * option stat_result))
    (acc : list detail * Z * list candidate) :
  (fold_left (report_file r) l acc).1.1 = acc.1.1 ++ map detail_of l.
Proof.
  revert acc. induction l as [|[file [st|]] l IH]; intros [[d z] c]; simpl.
  - now rewrite app_nil_r.
  - rewrite IH. simpl. now rewrite <- app_assoc.
  - rewrite IH. simpl. now rewrite <- app_assoc.
Qed.

Lemma fold_report_file_size (r : string) (l : list (string * option stat_result))
    (acc : list detail * Z * list candidate) :
  (fold_left (report_file r) l acc).1.2 = (acc.1.2 + zsum (map meta_size l))%Z.
Proof.
  revert acc. induction l as [|[file [st|]] l IH]; intros [[d z] c]; simpl.
  - lia.
  - rewrite IH. simpl. unfold zsum. simpl. change (meta_size (file, Some st)) with (st_size st). lia.
  - rewrite IH. simpl. unfold zsum. simpl. change (meta_size (file, None)) with 0%Z. lia.
Qed.

(** Every candidate of the directory comes from it. *)
Lemma fold_report_file_candidates (r : string) (l : list (string * option stat_result))
    (acc : list detail * Z * list candidate) (c : candidate) :
  In c (fold_left (report_file r) l acc).2 -> In c acc.2 \/ c.1.1.1 = r.
Proof.
  revert acc. induction l as [|[file [st|]] l IH]; intros [[d z] cs] H; simpl in *; [now left| |].
  - apply IH in H as [H|H]; [|now right]. simpl in H.
    destruct (is_candidate r file (file_age st)); [|now left].
    apply in_app_or in H as [H|[<-|[]]]; [now left|now right].
  - apply IH in H as [H|H]; [now left|now right].
Qed.

Lemma report_dir_unfold (rf : string) (s : rstate) (d : walk_dir) :
  report_dir rf s d =
  match kept_files rf d with
  | [] => s
  | _ :: _ =>
      let acc := fold_left (report_file (rel_label d.1)) (kept_files rf d) ([], 0%Z, r_deletions s) in
      {| r_total_files := r_total_files s + List.length (kept_files rf d);
         r_total_size := (r_total_size s + acc.1.2)%Z;
         r_deletions := acc.2;
         r_sections := r_sections s ++ [(rel_label d.1, sort_desc detail_size acc.1.1)] |}
  end.
Proof.
  destruct d as [rel files0]. unfold report_dir, kept_files. simpl.
  destruct (List.filter _ files0) as [|f l]; [done|].
  destruct (fold_left _ _ _) as [[d z] c]. reflexivity.
Qed.

Lemma filter_idem {B} (f : B -> bool) (l : list B) :
  List.filter f (List.filter f l) = List.filter f l.
Proof.
  induction l as [|x l IH]; simpl; [done|].
  destruct (f x) eqn:E; simpl; [rewrite E, IH|]; done.
Qed.

(** The walk without the files named like the report. *)
Definition strip_report (rf : string) (walk : list walk_dir) : list walk_dir :=
  map (fun d => (d.1, kept_files rf d)) walk.

Lemma report_walk_gen (rf : string) (walk : list walk_dir) (s : rstate) :
  let st := fold_left (report_dir rf) walk s in
  r_total_files st = (r_total_files s + list_sum (map (fun d => List.length (kept_files rf d)) walk))%nat /\
  r_total_size st = (r_total_size s + zsum (map (fun d => zsum (map meta_size (kept_files rf d))) walk))%Z /\
  map fst (r_sections st) =
  map fst (r_sections s) ++
  map (fun d => rel_label d.1)
      (List.filter (fun d => negb (Nat.eqb (List.length (kept_files rf d)) 0)) walk).
Proof.
  revert s. induction walk as [|d walk IH]; intros s.
  - simpl. rewrite app_nil_r. split; [lia|]. split; [unfold zsum; simpl; lia|done].
  - rewrite !map_cons, list_sum_cons_eq, zsum_cons. cbn [fold_left List.filter].
    destruct (IH (report_dir rf s d)) as [H1 [H2 H3]].
    rewrite H1, H2, H3. rewrite report_dir_unfold.
    destruct (kept_files rf d) as [|f l] eqn:Ek.
    + cbn [List.length Nat.eqb negb map]. split; [lia|]. split; [|done].
      change (zsum []) with 0%Z. lia.
    + cbv zeta. rewrite fold_report_file_size.
      cbn [List.length Nat.eqb negb r_total_files r_total_size r_sections fst snd].
      split; [lia|]. split; [lia|].
      rewrite map_app, <- app_assoc. reflexivity.
Qed.

(** Every candidate of a walk has a non-negative size and the candidates
    together weigh at most the total size, when the sizes read are
    non-negative. *)
Definition sizes_nonneg (walk : list walk_dir) : Prop :=
  forall d file st, In d walk -> In (file, Some st) d.2 -> (0 <= st_size st)%Z.

Lemma fold_report_file_savings (r : string) (l : list (string * option stat_result))
    (acc : list detail * Z * list candidate) :
  (forall file st, In (file, Some st) l -> (0 <= st_size st)%Z) ->
  let acc' := fold_left (report_file r) l acc in
  (zsum (map candidate_size acc.2) <= zsum (map candidate_size acc'.2))%Z /\
  (zsum (map candidate_size acc'.2) - zsum (map candidate_size acc.2) <= acc'.1.2 - acc.1.2)%Z.
Proof.
  revert acc. induction l as [|[file [st|]] l IH]; intros [[d z] c] Hnn; simpl; [lia| |].
  - assert (H0 : (0 <= st_size st)%Z) by (apply (Hnn file); now left).
    destruct (IH (d ++ [(file, st_size st, st_mtime st, file_age st)], (z + st_size st)%Z,
                  if is_candidate r file (file_age st)
                  then c ++ [(r, file, st_size st, file_age st)] else c))
      as [Ha Hb]; [intros f' st' H; apply (Hnn f'); now right|].
    simpl in Ha, Hb.
    destruct (is_candidate r file (file_age st));
      rewrite ?map_app, ?zsum_app in Ha, Hb; cbn [map candidate_size fst snd] in Ha, Hb;
      rewrite ?zsum_cons in Ha, Hb; change (zsum []) with 0%Z in Ha, Hb; lia.
  - destruct (IH (d ++ [(file, 0%Z, 0%Q, 0%Q)], z, c)) as [Ha Hb];
      [intros f' st' H; apply (Hnn f'); now right|].
    simpl in Ha, Hb. lia.
Qed.

Lemma report_walk_savings (rf : string) (walk : list walk_dir) (s : rstate) :
  sizes_nonneg walk ->
  (0 <= zsum (map candidate_size (r_deletions s)) <= r_total_size s)%Z ->
  let st := fold_left (report_dir rf) walk s in
  (0 <= zsum (map candidate_size (r_deletions st)) <= r_total_size st)%Z.
Proof.
  revert s. induction walk as [|d walk IH]; intros s Hnn Hs; simpl; [done|].
  apply IH; [intros d' f st Hd'; apply (Hnn d' f st); now right|].
  rewrite report_dir_unfold.
  destruct (kept_files rf d) as [|f l] eqn:Ek; [done|]. simpl.
  destruct (fold_report_file_savings (rel_label d.1) (f :: l) ([], 0%Z, r_deletions s)) as [Ha Hb].
  { intros file st Hin. apply (Hnn d file st); [now left|].
    assert (Hk : In (file, Some st) (kept_files rf d)) by (rewrite Ek; exact Hin).
    unfold kept_files in Hk. apply filter_In in Hk. apply Hk. }
  simpl in Ha, Hb. lia.
Qed.

Lemma generate_report_written (de ok : bool) (rf : string) (walk : list walk_dir) (r : report) :
  generate_report de ok rf walk = Written r ->
  rep_walk r = report_walk rf walk /\
  rep_candidates r = sort_desc candidate_size (r_deletions (report_walk rf walk)) /\
  match rep_savings r with
  | None => r_deletions (report_walk rf walk) = []
  | Some (sv, pct) =>
      sv = zsum (map candidate_size (r_deletions (report_walk rf walk))) /\
      (r_total_size (report_walk rf walk) <> 0)%Z /\
      pct = (inject_Z sv / inject_Z (r_total_size (report_walk rf walk)) * 100)%Q
  end.
Proof.
  unfold generate_report. destruct de, ok; cbn [negb]; try discriminate.
  destruct (r_deletions (report_walk rf walk)) as [|c cs] eqn:Ed.
  - intros [= <-]. simpl. done.
  - unfold py_div.
    destruct (Z.eqb_spec (r_total_size (report_walk rf walk)) 0) as [Hz|Hz]; [discriminate|].
    intros [= <-]. simpl. split; [done|]. split; [done|].
    split; [|done].
    rewrite fold_left_add, Z.add_0_l.
    transitivity (zsum (map candidate_size (c :: cs))); [|reflexivity].
    apply zsum_perm. apply Permutation_map. apply sort_desc_perm.
Qed.

(** X1: the report ignores every file named like the report file, in every
    directory of the tree and not only in the top directory. *)
Theorem report_ignores_report_named_files (de ok : bool) (rf : string) (walk : list walk_dir) :
  report_walk rf (strip_report rf walk) = report_walk rf walk /\
  generate_report de ok rf (strip_report rf walk) = generate_report de ok rf walk.
Proof.
  assert (H : report_walk rf (strip_report rf walk) = report_walk rf walk).
  { unfold report_walk, strip_report. generalize report_init.
    induction walk as [|d walk IH]; intros s; [done|].
    cbn [map fold_left]. rewrite IH. f_equal. rewrite !report_dir_unfold.
    replace (kept_files rf (d.1, kept_files rf d)) with (kept_files rf d)
      by (unfold kept_files; simpl; now rewrite filter_idem).
    reflexivity. }
  split; [exact H|]. unfold generate_report. now rewrite H.
Qed.

(** X2: [Total Files] counts every non-report file of the tree, those whose
    metadata read failed included; [Total Size] adds the sizes read, a
    failed read adding nothing; there is one section per directory with at
    least one non-report file, in walk order. *)
Theorem report_totals (rf : string) (walk : list walk_dir) :
  let st := report_walk rf walk in
  r_total_files st = list_sum (map (fun d => List.length (kept_files rf d)) walk) /\
  r_total_size st = zsum (map (fun d => zsum (map meta_size (kept_files rf d))) walk) /\
  map fst (r_sections st) =
  map (fun d => rel_label d.1)
      (List.filter (fun d => negb (Nat.eqb (List.length (kept_files rf d)) 0)) walk).
Proof.
  destruct (report_walk_gen rf walk report_init) as [H1 [H2 H3]].
  unfold report_walk. rewrite H1, H2, H3. simpl. split; [lia|]. split; [lia|done].
Qed.

(** X3: the section of a directory lists each of its non-report files once
    (a failed metadata read as size 0), largest first, files of equal size
    in listing order. *)
Theorem report_section_largest_first (rf : string) (s : rstate) (rel : string)
    (files0 : list (string * option stat_result)) :
  let files := kept_files rf (rel, files0) in
  files <> [] ->
  exists sec,
    r_sections (report_dir rf s (rel, files0)) = r_sections s ++ [(rel_label rel, sec)] /\
    Permutation sec (map detail_of files) /\
    Sorted (desc detail_size) sec /\
    (forall z, List.filter (with_key detail_size z) sec =
               List.filter (with_key detail_size z) (map detail_of files)).
Proof.
  intros files Hne. rewrite report_dir_unfold. fold files.
  destruct files as [|f l] eqn:Ef; [done|]. cbv zeta. cbn [r_sections fst].
  rewrite <- Ef.
  eexists. split; [reflexivity|].
  rewrite fold_report_file_details_eq. cbn [fst app].
  split; [apply sort_desc_perm|]. split; [apply sort_desc_sorted|].
  intros z. apply sort_desc_stable.
Qed.

Lemma report_section_largest_first_witness :
  let st := {| st_size := 5; st_mtime := 0; st_now := 0 |} in
  let files0 := [("a.txt", Some st); ("b.txt", None); ("file_organization_report.txt", Some st)] in
  kept_files "file_organization_report.txt" (".", files0) <> [] /\
  exists sec,
    r_sections (report_dir "file_organization_report.txt" report_init (".", files0))
    = r_sections report_init ++ [(rel_label ".", sec)] /\
    Permutation sec (map detail_of (kept_files "file_organization_report.txt" (".", files0))) /\
    Sorted (desc detail_size) sec /\
    (forall z, List.filter (with_key detail_size z) sec =
               List.filter (with_key detail_size z)
                 (map detail_of (kept_files "file_organization_report.txt" (".", files0)))).
Proof.
  intros st files0.
  assert (Hne : kept_files "file_organization_report.txt" (".", files0) <> []) by discriminate.
  split; [exact Hne|].
  exact (report_section_largest_first "file_organization_report.txt" report_init "." files0 Hne).
Defined.

(** X4: the candidates of a written report are those of the walk, largest
    first, candidates of equal size in walk order. *)
Theorem report_candidates_largest_first (de ok : bool) (rf : string) (walk : list walk_dir)
    (r : report) :
  generate_report de ok rf walk = Written r ->
  rep_walk r = report_walk rf walk /\
  Permutation (rep_candidates r) (r_deletions (report_walk rf walk)) /\
  Sorted (desc candidate_size) (rep_candidates r) /\
  (forall z, List.filter (with_key candidate_size z) (rep_candidates r) =
             List.filter (with_key candidate_size z) (r_deletions (report_walk rf walk))).
Proof.
  intros H. destruct (generate_report_written de ok rf walk r H) as [Hw [Hc _]].
  split; [exact Hw|]. rewrite Hc.
  split; [apply sort_desc_perm|]. split; [apply sort_desc_sorted|].
  intros z. apply sort_desc_stable.
Qed.

Lemma report_candidates_largest_first_witness :
  let walk := [(".", [("cache_a.txt", Some {| st_size := 5; st_mtime := 0; st_now := 0 |});
                      ("cache_b.txt", Some {| st_size := 9; st_mtime := 0; st_now := 0 |})])] in
  exists r,
    generate_report true true "file_organization_report.txt" walk = Written r /\
    rep_walk r = report_walk "file_organization_report.txt" walk /\
    Permutation (rep_candidates r) (r_deletions (report_walk "file_organization_report.txt" walk)) /\
    Sorted (desc candidate_size) (rep_candidates r) /\
    (forall z, List.filter (with_key candidate_size z) (rep_candidates r) =
               List.filter (with_key candidate_size z)
                 (r_deletions (report_walk "file_organization_report.txt" walk))).
Proof.
  intros walk.
  destruct (generate_report true true "file_organization_report.txt" walk) as [|e|r] eqn:E;
    [vm_compute in E; discriminate|vm_compute in E; discriminate|].
  exists r. split; [reflexivity|].
  exact (report_candidates_largest_first true true "file_organization_report.txt" walk r E).
Defined.

(** X5: with non-negative file sizes, the potential savings are the sum of the
    candidates' sizes, between 0 and the total size, and the percentage
    written is between 0 and 100. *)
Theorem report_savings_at_most_total (de ok : bool) (rf : string) (walk : list walk_dir)
    (r : report) (sv : Z) (pct : Q) :
  sizes_nonneg walk ->
  generate_report de ok rf walk = Written r ->
  rep_savings r = Some (sv, pct) ->
  sv = zsum (map candidate_size (rep_candidates r)) /\
  (0 < r_total_size (rep_walk r))%Z /\
  (0 <= sv <= r_total_size (rep_walk r))%Z /\
  (0 <= pct <= 100)%Q.
Proof.
  intros Hnn H Hs.
  destruct (generate_report_written de ok rf walk r H) as [Hw [Hc Hsv]].
  rewrite Hs in Hsv. destruct Hsv as [Hsv [Hz Hpct]].
  pose proof (report_walk_savings rf walk report_init Hnn ltac:(simpl; lia)) as Hb.
  cbv zeta in Hb. fold (report_walk rf walk) in Hb.
  rewrite Hw, Hc.
  assert (Hsum : zsum (map candidate_size (sort_desc candidate_size (r_deletions (report_walk rf walk))))
                 = zsum (map candidate_size (r_deletions (report_walk rf walk)))).
  { apply zsum_perm, Permutation_map, sort_desc_perm. }
  rewrite Hsum. split; [exact Hsv|].
  set (T := r_total_size (report_walk rf walk)) in *.
  assert (HT : (0 < T)%Z) by lia.
  split; [exact HT|]. split; [lia|].
  assert (HTq : (0 < inject_Z T)%Q) by (change 0%Q with (inject_Z 0); rewrite <- Zlt_Qlt; lia).
  assert (Hq0 : (0 <= inject_Z sv / inject_Z T)%Q).
  { apply Qle_shift_div_l; [exact HTq|]. rewrite Qmult_0_l.
    change 0%Q with (inject_Z 0). rewrite <- Zle_Qle. lia. }
  assert (Hq1 : (inject_Z sv / inject_Z T <= 1)%Q).
  { apply Qle_shift_div_r; [exact HTq|]. rewrite Qmult_1_l. rewrite <- Zle_Qle. lia. }
  rewrite Hpct. split.
  - apply Qmult_le_0_compat; [exact Hq0|]. discriminate.
  - apply (Qle_trans _ (1 * 100)%Q); [|discriminate].
    apply Qmult_le_compat_r; [exact Hq1|discriminate].
Qed.

Lemma report_savings_at_most_total_witness :
  let walk := [(".", [("cache.txt", Some {| st_size := 10; st_mtime := 0; st_now := 0 |});
                      ("b.txt", Some {| st_size := 30; st_mtime := 0; st_now := 0 |})])] in
  exists r sv pct,
    sizes_nonneg walk /\
    generate_report true true "file_organization_report.txt" walk = Written r /\
    rep_savings r = Some (sv, pct) /\
    sv = zsum (map candidate_size (rep_candidates r)) /\
    (0 < r_total_size (rep_walk r))%Z /\
    (0 <= sv <= r_total_size (rep_walk r))%Z /\
    (0 <= pct <= 100)%Q.
Proof.
  intros walk.
  assert (Hnn : sizes_nonneg walk).
  { intros d file st [<-|[]] Hin. simpl in Hin.
    destruct Hin as [Hin|[Hin|[]]]; injection Hin as _ <-; simpl; lia. }
  destruct (generate_report true true "file_organization_report.txt" walk) as [|e|r] eqn:E;
    [vm_compute in E; discriminate|vm_compute in E; discriminate|].
  destruct (rep_savings r) as [[sv pct]|] eqn:Es;
    [|vm_compute in E; injection E as <-; vm_compute in Es; discriminate].
  exists r, sv, pct. split; [exact Hnn|]. split; [reflexivity|]. split; [exact Es|].
  exact (report_savings_at_most_total true true "file_organization_report.txt" walk r sv pct
           Hnn E Es).
Defined.

(** X6: a top-level folder named [Root Directory] is reported exactly as the
    top directory itself, and the candidates of either are written by
    their bare file name. *)
Theorem report_root_folder_same_as_root (rf : string) (s : rstate)
    (files0 : list (string * option stat_result)) :
  report_dir rf s (".", files0) = report_dir rf s ("Root Directory", files0) /\
  (forall c, In c (r_deletions (report_dir rf s (".", files0))) ->
     ~ In c (r_deletions s) -> candidate_display c = c.1.1.2).
Proof.
  split; [reflexivity|].
  intros c Hin Hnot. rewrite report_dir_unfold in Hin.
  destruct (kept_files rf (".", files0)) as [|f l]; [done|].
  cbv zeta in Hin. cbn [r_deletions] in Hin.
  apply fold_report_file_candidates in Hin as [Hin|Hin]; [done|].
  destruct c as [[[rp file] z] a]. simpl in Hin. subst rp. reflexivity.
Qed.

(* ------------------------------------------------------------------ *)
(** ** [organize_files]: blocked folders and collisions *)

(** [makedirs_from] walks through the prefixes that are already
    directories. *)
Lemma makedirs_from_through (fs : fsys) (pre l rest : path) :
  (forall r1 r2, l = r1 ++ r2 -> r1 <> [] -> fs !! (pre ++ r1) = Some Dir) ->
  makedirs_from fs pre (l ++ rest) = makedirs_from fs (pre ++ l) rest.
Proof.
  revert pre. induction l as [|c l IH]; intros pre Hd; cbn.
  - now rewrite app_nil_r.
  - rewrite (Hd [c] l) by done. rewrite IH.
    + now rewrite <- app_assoc.
    + intros r1 r2 -> Hr1. rewrite <- app_assoc. apply (Hd (c :: r1) r2); done.
Qed.

Lemma makedirs_existing (fs : fsys) (tf : path) :
  (forall r1 r2, tf = r1 ++ r2 -> r1 <> [] -> fs !! r1 = Some Dir) ->
  makedirs fs tf = (fs, true).
Proof.
  intros Hd. unfold makedirs. rewrite <- (app_nil_r tf).
  rewrite makedirs_from_through; [done|].
  intros r1 r2 Hr Hr1. exact (Hd r1 r2 Hr Hr1).
Qed.

(** X8: a file occupying the first component of a file's category folder
    (for instance a file named [Notes] when organizing by name) makes
    [os.makedirs] raise for that file; the outer handler then ends the whole
    run: the remaining names are never examined and nothing more is moved. *)
Theorem organize_loop_stops_at_blocked_category (e : env) (directory : path)
    (organize_by_name : bool) (st : ostate) (filename : string)
    (rest : list string) (c : nat) :
  (forall r1 r2, directory = r1 ++ r2 -> r1 <> [] -> o_fs st !! r1 = Some Dir) ->
  path_isdir (o_fs st) (directory ++ [filename]) = false ->
  o_fs st !! (directory ++ [hd "" (components (classify organize_by_name filename))])
    = Some (File c) ->
  organize_loop e directory organize_by_name st (filename :: rest) =
  ({| o_fs := o_fs st; o_moved := o_moved st;
      o_log := o_log st ++ [EvAbort filename]; o_tick := S (o_tick st) |}, true).
Proof.
  intros Hd Hnd Hf. cbn. unfold process_entry. rewrite Hnd.
  pose proof (components_classify organize_by_name filename) as Hne.
  destruct (components (classify organize_by_name filename)) as [|c0 comps] eqn:Ec;
    [done|]. cbn in Hf.
  unfold makedirs.
  rewrite makedirs_from_through by (intros r1 r2 Hr Hr1; exact (Hd r1 r2 Hr Hr1)).
  cbn. rewrite Hf. reflexivity.
Qed.

Lemma organize_loop_stops_at_blocked_category_witness :
  (forall r1 r2, ["d"] = r1 ++ r2 -> r1 <> [] ->
     o_fs (init_state demo_fs_notes) !! r1 = Some Dir) /\
  organize_loop demo_env ["d"] true (init_state demo_fs_notes) ["Notes"; "x.txt"] =
  ({| o_fs := demo_fs_notes; o_moved := 0; o_log := [EvAbort "Notes"]; o_tick := 1 |}, true).
Proof.
  assert (Hd : forall r1 r2, ["d"] = r1 ++ r2 -> r1 <> [] ->
                 o_fs (init_state demo_fs_notes) !! r1 = Some Dir).
  { intros [|x [|y r1]] r2 Hr Hr1; [done| |done].
    injection Hr as <- _. reflexivity. }
  split; [exact Hd|].
  apply (organize_loop_stops_at_blocked_category demo_env ["d"] true
           (init_state demo_fs_notes) "Notes" ["x.txt"] 1 Hd);
    vm_compute; reflexivity.
Defined.

(** X9: when both [target_folder/filename] and the timestamped name exist,
    [organize_files] does not detect the second collision: [shutil.move]
    renames the file onto the timestamped path, replacing the file that was
    there, and counts the move. *)
Theorem collision_overwrites_timestamped_file (e : env) (directory : path)
    (organize_by_name : bool) (st : ostate) (filename : string) (c c' : nat) :
  let tf := directory ++ components (classify organize_by_name filename) in
  let ts_path := tf ++ [fst (splitext filename) +:+ strftime_ts (clock e (o_tick st))
                        +:+ snd (splitext filename)] in
  (forall r1 r2, tf = r1 ++ r2 -> r1 <> [] -> o_fs st !! r1 = Some Dir) ->
  o_fs st !! (directory ++ [filename]) = Some (File c) ->
  path_exists (o_fs st) (tf ++ [filename]) = true ->
  o_fs st !! ts_path = Some (File c') ->
  move_fails e (directory ++ [filename]) ts_path = false ->
  exists st', process_entry e directory organize_by_name st filename = inl st' /\
    o_fs st' !! ts_path = Some (File c) /\
    o_fs st' !! (directory ++ [filename]) = None /\
    o_moved st' = S (o_moved st).
Proof.
  intros tf ts_path Hd Hsrc Hex Hts Hmf. unfold process_entry.
  assert (Hnd : path_isdir (o_fs st) (directory ++ [filename]) = false)
    by (unfold path_isdir; now rewrite Hsrc).
  rewrite Hnd. fold tf. rewrite (makedirs_existing _ _ Hd). cbn [negb].
  assert (Hct : collision_target (clock e (o_tick st)) (o_fs st) tf filename = ts_path).
  { unfold collision_target. rewrite Hex. unfold ts_path.
    destruct (splitext filename); reflexivity. }
  rewrite Hct. unfold shutil_move.
  assert (Hnd' : path_isdir (o_fs st) ts_path = false)
    by (unfold path_isdir; now rewrite Hts).
  rewrite Hnd', Hmf, Hsrc. cbn.
  eexists. split; [reflexivity|]. cbn. split; [|split; [|done]].
  - now rewrite lookup_insert_eq.
  - assert (Hneq : ts_path <> directory ++ [filename]).
    { apply path_longer_neq. unfold ts_path, tf. rewrite !length_app.
      pose proof (components_classify organize_by_name filename) as Hne.
      destruct (components _); [done|cbn; lia]. }
    rewrite lookup_insert_ne by (intros H; apply Hneq; done).
    apply lookup_delete_eq.
Qed.

Lemma collision_overwrites_timestamped_file_witness :
  exists st', process_entry demo_env ["d"] true (init_state demo_fs_stamped) "photo.JPG"
                = inl st' /\
    o_fs st' !! ["d"; "Images"; "JPEG"; "photo_20261018_090500.JPG"] = Some (File 1) /\
    o_fs st' !! ["d"; "photo.JPG"] = None /\ o_moved st' = 1%nat.
Proof.
  apply (collision_overwrites_timestamped_file demo_env ["d"] true
           (init_state demo_fs_stamped) "photo.JPG" 1 7).
  - intros r1 r2 Hr Hr1. vm_compute in Hr.
    destruct r1 as [|x [|y [|z [|w r1]]]]; try done;
      injection Hr as Hr; subst; try reflexivity;
      repeat match goal with H : _ = _ |- _ => injection H as H; subst end;
      reflexivity.
  - reflexivity.
  - vm_compute. reflexivity.
  - vm_compute. reflexivity.
  - reflexivity.
Defined.

(* ------------------------------------------------------------------ *)
(** ** [format_size] *)

Open Scope Z_scope.

Lemma round_half_even_bound (a d : Z) :
  (0 < d)%Z -> (2 * Z.abs (a - round_half_even a d * d) <= d)%Z.
Proof.
  intros Hd. unfold round_half_even.
  pose proof (Z.div_mod a d ltac:(lia)) as Ha.
  pose proof (Z.mod_pos_bound a d Hd) as Hr.
  set (q := (a / d)%Z) in *. set (r := (a mod d)%Z) in *.
  assert (Hq : (a - q * d = r)%Z) by lia.
  assert (Hq1 : (a - (q + 1) * d = r - d)%Z) by lia.
  destruct (Z.ltb_spec (2 * r) d); [rewrite Hq; lia|].
  destruct (Z.ltb_spec d (2 * r)); [rewrite Hq1; lia|].
  destruct (Z.even q); [rewrite Hq|rewrite Hq1]; lia.
Qed.

Lemma round_half_even_unique (a d q : Z) :
  (0 < d)%Z -> (2 * Z.abs (a - q * d) < d)%Z -> round_half_even a d = q.
Proof.
  intros Hd Hq. pose proof (round_half_even_bound a d Hd) as Ht.
  set (t := round_half_even a d) in *.
  destruct (Z.lt_trichotomy t q) as [Hlt|[Heq|Hgt]]; [exfalso| exact Heq |exfalso].
  - assert (Hm : ((t + 1) * d <= q * d)%Z) by (apply Z.mul_le_mono_nonneg_r; lia). lia.
  - assert (Hm : ((q + 1) * d <= t * d)%Z) by (apply Z.mul_le_mono_nonneg_r; lia). lia.
Qed.

Lemma to_double_exact (n : Z) : (0 <= n < 2 ^ 53)%Z -> to_double n = n.
Proof.
  intros Hn. unfold to_double.
  destruct (Z.eq_dec n 0) as [->|Hn0]; [reflexivity|].
  assert (Hl : (Z.log2 n < 53)%Z) by (apply Z.log2_lt_pow2; lia).
  destruct (Z.leb_spec (Z.log2 n - 52) 0); [reflexivity|lia].
Qed.

(** X10: for sizes from 1 KB up to 2^53 bytes (where the division is exact)
    the figure [format_size] prints is the number of tenths [t] nearest to
    the size divided by the unit chosen by the thresholds (KB below 1 MB,
    MB below 1 GB, GB above): [t] differs from ten times the exact quotient
    by at most one half. *)
Theorem format_size_nearest_tenth (n : Z) :
  (1024 <= n < 2 ^ 53)%Z ->
  exists t : Z,
    ((n < 1024 * 1024)%Z /\ format_size n = Some (tenths_str t +:+ " KB") /\
     (2 * Z.abs (10 * n - t * 2 ^ 10) <= 2 ^ 10)%Z) \/
    ((1024 * 1024 <= n < 1024 * 1024 * 1024)%Z /\
     format_size n = Some (tenths_str t +:+ " MB") /\
     (2 * Z.abs (10 * n - t * 2 ^ 20) <= 2 ^ 20)%Z) \/
    ((1024 * 1024 * 1024 <= n)%Z /\ format_size n = Some (tenths_str t +:+ " GB") /\
     (2 * Z.abs (10 * n - t * 2 ^ 30) <= 2 ^ 30)%Z).
Proof.
  intros Hn. unfold format_size, format_1f.
  rewrite (to_double_exact n) by lia.
  assert (H53 : (2 ^ 53 < 2 ^ 1054)%Z) by (apply Z.pow_lt_mono_r; lia).
  destruct (Z.ltb_spec n 1024); [lia|].
  destruct (Z.ltb_spec n (1024 * 1024)).
  { exists (round_half_even (10 * n) (2 ^ 10)). left.
    split; [lia|split; [reflexivity|apply round_half_even_bound; lia]]. }
  destruct (Z.ltb_spec n (1024 * 1024 * 1024)).
  { exists (round_half_even (10 * n) (2 ^ 20)). right; left.
    split; [lia|split; [reflexivity|apply round_half_even_bound; lia]]. }
  destruct (Z.leb_spec (2 ^ 1054) n); [lia|].
  exists (round_half_even (10 * n) (2 ^ 30)). right; right.
  split; [lia|split; [reflexivity|apply round_half_even_bound; lia]].
Qed.

Lemma format_size_nearest_tenth_witness :
  (1024 <= 1280 < 2 ^ 53)%Z /\
  exists t : Z,
    ((1280 < 1024 * 1024)%Z /\ format_size 1280 = Some (tenths_str t +:+ " KB") /\
     (2 * Z.abs (10 * 1280 - t * 2 ^ 10) <= 2 ^ 10)%Z) \/
    ((1024 * 1024 <= 1280 < 1024 * 1024 * 1024)%Z /\
     format_size 1280 = Some (tenths_str t +:+ " MB") /\
     (2 * Z.abs (10 * 1280 - t * 2 ^ 20) <= 2 ^ 20)%Z) \/
    ((1024 * 1024 * 1024 <= 1280)%Z /\ format_size 1280 = Some (tenths_str t +:+ " GB") /\
     (2 * Z.abs (10 * 1280 - t * 2 ^ 30) <= 2 ^ 30)%Z).
Proof.
  assert (H : (1024 <= 1280 < 2 ^ 53)%Z) by (split; [lia|vm_compute; reflexivity]).
  split; [exact H|]. exact (format_size_nearest_tenth 1280 H).
Defined.

(** X11: the thresholds compare the size in bytes, not the rounded figure:
    every size from 1048525 to 1048575 bytes is shown as [1024.0 KB], and
    every size from 1073689396 to 1073741823 bytes as [1024.0 MB]. *)
Theorem format_size_shows_1024 (n : Z) :
  ((1048525 <= n <= 1048575)%Z -> format_size n = Some "1024.0 KB") /\
  ((1073689396 <= n <= 1073741823)%Z -> format_size n = Some "1024.0 MB").
Proof.
  split; intros Hn; unfold format_size, format_1f;
    (rewrite (to_double_exact n);
     [|split; [lia|change (2 ^ 53) with 9007199254740992; lia]]).
  - destruct (Z.ltb_spec n 1024); [lia|].
    destruct (Z.ltb_spec n (1024 * 1024)); [|lia].
    rewrite (round_half_even_unique _ _ 10240); [reflexivity|lia|].
    change (2 ^ 10) with 1024. lia.
  - destruct (Z.ltb_spec n 1024); [lia|].
    destruct (Z.ltb_spec n (1024 * 1024)); [lia|].
    destruct (Z.ltb_spec n (1024 * 1024 * 1024)); [|lia].
    rewrite (round_half_even_unique _ _ 10240); [reflexivity|lia|].
    change (2 ^ 20) with 1048576. lia.
Qed.

Lemma format_size_shows_1024_witness :
  format_size 1048525 = Some "1024.0 KB" /\ format_size 1073741823 = Some "1024.0 MB".
Proof.
  split; [apply (proj1 (format_size_shows_1024 1048525))|
          apply (proj2 (format_size_shows_1024 1073741823))]; lia.
Defined.

Close Scope Z_scope.

(* ------------------------------------------------------------------ *)
(** ** [show_menu] and [main] *)

(** X12: [show_menu] skips every line that is not an int between 1 and 5
    (a [ValueError] of [int()] or a number out of range) and returns the
    first one that is, with the lines after it; it raises [EOFError]
    exactly when no line of the input is a valid choice. *)
Theorem show_menu_first_valid (inputs : list string) :
  (forall c rest, show_menu inputs = Some (c, rest) <->
     exists pre s, inputs = pre ++ s :: rest /\ py_int s = Some c /\ (1 <= c <= 5)%Z /\
       Forall (fun x => forall v, py_int x = Some v -> ~ (1 <= v <= 5)%Z) pre) /\
  (show_menu inputs = None <->
     Forall (fun x => forall v, py_int x = Some v -> ~ (1 <= v <= 5)%Z) inputs).
Proof.
  induction inputs as [|s0 inputs [IHs IHn]]; split.
  - intros c rest. split; [done|].
    intros (pre & s & Hin & _). destruct pre; done.
  - split; [constructor|done].
  - intros c rest. cbn. split.
    + destruct (py_int s0) as [v|] eqn:Ev.
      * destruct (Z.leb_spec 1 v); destruct (Z.leb_spec v 5); cbn.
        -- intros [= <- <-]. exists [], s0. split; [reflexivity|split; [exact Ev|split; [lia|constructor]]].
        -- intros Hm. apply IHs in Hm as (pre & s & -> & Hs & Hc & Hpre).
           exists (s0 :: pre), s. split; [reflexivity|split; [exact Hs|split; [exact Hc|]]].
           constructor; [|exact Hpre]. intros v' Hv'. rewrite Ev in Hv'. injection Hv' as <-. lia.
        -- intros Hm. apply IHs in Hm as (pre & s & -> & Hs & Hc & Hpre).
           exists (s0 :: pre), s. split; [reflexivity|split; [exact Hs|split; [exact Hc|]]].
           constructor; [|exact Hpre]. intros v' Hv'. rewrite Ev in Hv'. injection Hv' as <-. lia.
        -- intros Hm. apply IHs in Hm as (pre & s & -> & Hs & Hc & Hpre).
           exists (s0 :: pre), s. split; [reflexivity|split; [exact Hs|split; [exact Hc|]]].
           constructor; [|exact Hpre]. intros v' Hv'. rewrite Ev in Hv'. injection Hv' as <-. lia.
      * intros Hm. apply IHs in Hm as (pre & s & -> & Hs & Hc & Hpre).
        exists (s0 :: pre), s. split; [reflexivity|split; [exact Hs|split; [exact Hc|]]].
        constructor; [|exact Hpre]. intros v' Hv'. rewrite Ev in Hv'. done.
    + intros ([|s1 pre] & s & Hin & Hs & Hc & Hpre); cbn in Hin.
      * injection Hin as -> ->. rewrite Hs.
        destruct (Z.leb_spec 1 c); destruct (Z.leb_spec c 5); try lia. reflexivity.
      * injection Hin as -> Hin. inversion Hpre as [|? ? Hs1 Hpre']; subst.
        assert (Hr : show_menu (pre ++ s :: rest) = Some (c, rest))
          by (apply IHs; exists pre, s; auto).
        destruct (py_int s1) as [v|] eqn:Ev; [|exact Hr].
        destruct (Z.leb_spec 1 v); destruct (Z.leb_spec v 5); cbn; try exact Hr.
        exfalso. apply (Hs1 v); [reflexivity|lia].
  - cbn. split.
    + destruct (py_int s0) as [v|] eqn:Ev.
      * destruct (Z.leb_spec 1 v); destruct (Z.leb_spec v 5); cbn; [done| | |];
          intros Hm; (constructor; [|now apply IHn]);
          intros v' Hv'; rewrite Ev in Hv'; injection Hv' as <-; lia.
      * intros Hm. constructor; [|now apply IHn]. intros v' Hv'. rewrite Ev in Hv'. done.
    + intros Hall. inversion Hall as [|? ? Hs0 Hrest]; subst.
      apply IHn in Hrest.
      destruct (py_int s0) as [v|] eqn:Ev; [|exact Hrest].
      destruct (Z.leb_spec 1 v); destruct (Z.leb_spec v 5); cbn; try exact Hrest.
      exfalso. apply (Hs0 v); [reflexivity|lia].
Qed.

Section MainProps.

Variable world : Type.
Variable is_valid_dir : world -> string -> bool.
Variable expanduser : string -> string.
Variable run_op : world -> op -> string -> world.

Lemma run_ops_calls (w : world) (ops : list op) (d : string) :
  (run_ops world run_op w ops d).2 = map (fun o => (o, d)) ops.
Proof.
  revert w. induction ops as [|o ops IH]; intros w; [done|]. cbn.
  specialize (IH (run_op w o d)).
  destruct (run_ops world run_op (run_op w o d) ops d). cbn in *. now rewrite IH.
Qed.

Lemma mode_ops_default (c : Z) (o : op) :
  In o (mode_ops c default_report) ->
  o = OpOrganize false \/ o = OpOrganize true \/ o = OpReport default_report.
Proof.
  unfold mode_ops.
  destruct (c =? 1)%Z; [cbn; intuition|].
  destruct (c =? 2)%Z; [cbn; intuition|].
  destruct (c =? 3)%Z; [cbn; intuition|].
  destruct (c =? 4)%Z; cbn; intuition.
Qed.

Lemma interactive_calls (fuel : nat) (w : world) (inputs : list string) (o : op) (d : string) :
  In (o, d) (interactive world is_valid_dir expanduser run_op fuel w inputs).1.2 ->
  (o = OpOrganize false \/ o = OpOrganize true \/ o = OpReport default_report) /\ d <> "".
Proof.
  revert w inputs. induction fuel as [|fuel IH]; intros w inputs; cbn; [done|].
  destruct (show_menu inputs) as [[choice rest]|]; [|done].
  destruct (choice =? 5)%Z; [done|].
  destruct (get_directory_path _ _ rest) as [[[dir|] rest']|]; [|apply IH|done].
  destruct (String.eqb_spec dir ""); [apply IH|].
  pose proof (run_ops_calls w (mode_ops choice default_report) dir) as Hc.
  destruct (run_ops world run_op w _ dir) as [w' calls]. cbn in Hc. subst calls.
  assert (Hgrp : In (o, d) (map (fun o => (o, dir)) (mode_ops choice default_report)) ->
                 (o = OpOrganize false \/ o = OpOrganize true \/ o = OpReport default_report)
                 /\ d <> "").
  { intros Hin. apply in_map_iff in Hin as (o' & [= <- <-] & Hin).
    split; [now apply (mode_ops_default choice)|done]. }
  destruct rest' as [|another rest'']; [exact Hgrp|].
  destruct (negb _); [exact Hgrp|].
  specialize (IH w' rest'').
  destruct (interactive _ _ _ _ fuel w' rest'') as [[w'' calls'] e]. cbn in *.
  intros Hin. apply in_app_or in Hin as [Hin|Hin]; [exact (Hgrp Hin)|exact (IH Hin)].
Qed.

(** X13: when [--directory] or [--mode] is missing or empty, [main] runs the
    interactive menu, and then every call it makes is [organize_files] (by
    extension, or by extension and name) or [generate_report] with the
    default report name [file_organization_report.txt], on a non-empty
    directory; a [--report] argument is ignored. *)
Theorem main_interactive_calls (a : cli_args) (w : world) (inputs : list string)
    (o : op) (d : string) :
  (forall dir m, arg_directory a = Some dir -> arg_mode a = Some m -> dir = "" \/ m = 0%Z) ->
  In (o, d) (main world is_valid_dir expanduser run_op a w inputs).1.2 ->
  (o = OpOrganize false \/ o = OpOrganize true \/ o = OpReport default_report) /\ d <> "".
Proof.
  intros Hnc. unfold main.
  destruct (arg_directory a) as [dir|]; [|apply interactive_calls].
  destruct (arg_mode a) as [m|]; [|apply interactive_calls].
  destruct (Hnc dir m eq_refl eq_refl) as [-> | ->]; cbn [negb andb String.eqb Z.eqb];
    [|rewrite andb_false_r]; apply interactive_calls.
Qed.

(** X14: with a non-empty [--directory] and a non-zero [--mode], [main]
    reads no line of the standard input, ends without the menu (after the
    calls, or at once on an invalid directory), and makes every call on the
    expanded directory, with a report name that is never empty (an empty
    [--report] falls back to the default). *)
Theorem main_command_line (a : cli_args) (w : world) (inputs : list string)
    (dir : string) (m : Z) :
  arg_directory a = Some dir -> arg_mode a = Some m -> dir <> "" -> m <> 0%Z ->
  main world is_valid_dir expanduser run_op a w inputs =
    main world is_valid_dir expanduser run_op a w [] /\
  ((main world is_valid_dir expanduser run_op a w inputs).2 = Finished \/
   (main world is_valid_dir expanduser run_op a w inputs).2 = InvalidDirectory) /\
  (forall o d, In (o, d) (main world is_valid_dir expanduser run_op a w inputs).1.2 ->
     d = expanduser dir /\ forall rf, o = OpReport rf -> rf <> "").
Proof.
  intros Hd Hm Hdn Hmn. unfold main. rewrite Hd, Hm.
  destruct (String.eqb_spec dir ""); [done|].
  destruct (Z.eqb_spec m 0); [done|]. cbn.
  destruct (is_valid_dir w (expanduser dir)); cbn; [|split; [done|split; [now right|done]]].
  set (rf := match arg_report a with
             | Some r => if String.eqb r "" then default_report else r
             | None => default_report end).
  assert (Hrf : rf <> "").
  { unfold rf. destruct (arg_report a) as [r|]; [|done].
    destruct (String.eqb_spec r ""); done. }
  pose proof (run_ops_calls w (mode_ops m rf) (expanduser dir)) as Hc.
  destruct (run_ops world run_op w _ _) as [w' calls]. cbn in *. subst calls.
  split; [done|split; [now left|]].
  intros o d Hin. apply in_map_iff in Hin as (o' & [= <- <-] & Hin).
  split; [done|]. intros r ->. revert Hin. unfold mode_ops.
  destruct (m =? 1)%Z; [cbn; intuition congruence|].
  destruct (m =? 2)%Z; [cbn; intuition congruence|].
  destruct (m =? 3)%Z; [cbn; intuition congruence|].
  destruct (m =? 4)%Z; cbn; intuition congruence.
Qed.

Lemma show_menu_shorter (inputs rest : list string) (c : Z) :
  show_menu inputs = Some (c, rest) -> (List.length rest < List.length inputs)%nat.
Proof.
  revert c. induction inputs as [|s inputs IH]; intros c; cbn; [done|].
  destruct (py_int s) as [v|].
  - destruct (_ && _); [intros [= _ <-]; lia|intros H; apply IH in H; lia].
  - intros H. apply IH in H. lia.
Qed.

Lemma get_directory_path_shorter (is_valid : string -> bool) (inputs rest : list string)
    (r : option string) :
  get_directory_path is_valid expanduser inputs = Some (r, rest) ->
  (List.length rest < List.length inputs)%nat.
Proof.
  remember (List.length inputs) as n eqn:En. revert inputs rest r En.
  induction n as [n IH] using (well_founded_induction lt_wf).
  intros inputs rest r ->.
  destruct inputs as [|s0 inputs]; cbn; [done|].
  destruct (is_valid (expanduser s0)); [intros [= _ <-]; lia|].
  destruct inputs as [|s1 inputs]; [done|].
  destruct (negb _); [intros [= _ <-]; cbn; lia|].
  intros H. pose proof (IH (List.length inputs) ltac:(cbn; lia) inputs rest r eq_refl H).
  cbn. lia.
Qed.

Lemma interactive_fuel (inputs : list string) :
  forall k1 k2 w, (List.length inputs < k1)%nat -> (List.length inputs < k2)%nat ->
  interactive world is_valid_dir expanduser run_op k1 w inputs =
  interactive world is_valid_dir expanduser run_op k2 w inputs.
Proof.
  remember (List.length inputs) as n eqn:En. revert inputs En.
  induction n as [n IH] using (well_founded_induction lt_wf).
  intros inputs -> [|k1] [|k2] w H1 H2; try lia. cbn.
  destruct (show_menu inputs) as [[choice rest]|] eqn:Es; [|done].
  apply show_menu_shorter in Es.
  destruct (choice =? 5)%Z; [done|].
  destruct (get_directory_path _ _ rest) as [[[dir|] rest']|] eqn:Eg; [| |done];
    apply get_directory_path_shorter in Eg.
  - destruct (String.eqb dir ""); [apply (IH (List.length rest')); [lia|done|lia|lia]|].
    destruct (run_ops _ _ w _ dir) as [w' calls].
    destruct rest' as [|another rest'']; [done|].
    destruct (negb _); [done|].
    cbn in Eg. rewrite (IH (List.length rest'') ltac:(lia) rest'' eq_refl k1 k2 w'); [done|lia|lia].
  - apply (IH (List.length rest')); [lia|done|lia|lia].
Qed.

(** X15: every round of the interactive loop reads at least one line (the
    menu choice), so on [n] lines of input the loop ends within [n + 1]
    rounds: a larger budget of rounds gives the same result. *)
Theorem interactive_ends_with_input (inputs : list string) (k : nat) (w : world) :
  (List.length inputs < k)%nat ->
  interactive world is_valid_dir expanduser run_op k w inputs =
  interactive world is_valid_dir expanduser run_op (S (List.length inputs)) w inputs.
Proof. intros Hk. apply interactive_fuel; lia. Qed.

End MainProps.

(** A machine where every path is a directory and the calls change
    nothing. *)
Lemma main_interactive_calls_witness :
  In (OpReport default_report, "/tmp")
     (main unit (fun _ _ => true) (fun s => s) (fun w _ _ => w)
        {| arg_directory := None; arg_mode := Some 3%Z; arg_report := Some "mine.txt" |}
        tt ["3"; "/tmp"; "n"]).1.2 /\
  ((OpReport default_report = OpOrganize false \/ OpReport default_report = OpOrganize true \/
    OpReport default_report = OpReport default_report) /\ "/tmp" <> "").
Proof.
  assert (Hin : In (OpReport default_report, "/tmp")
     (main unit (fun _ _ => true) (fun s => s) (fun w _ _ => w)
        {| arg_directory := None; arg_mode := Some 3%Z; arg_report := Some "mine.txt" |}
        tt ["3"; "/tmp"; "n"]).1.2) by (vm_compute; left; reflexivity).
  split; [exact Hin|].
  apply (main_interactive_calls unit (fun _ _ => true) (fun s => s) (fun w _ _ => w)
           {| arg_directory := None; arg_mode := Some 3%Z; arg_report := Some "mine.txt" |}
           tt ["3"; "/tmp"; "n"]); [|exact Hin].
  intros dir m Hd _. discriminate Hd.
Defined.

Lemma main_command_line_witness :
  let a := {| arg_directory := Some "~/x"; arg_mode := Some 4%Z; arg_report := Some "" |} in
  main unit (fun _ _ => true) (fun s => s) (fun w _ _ => w) a tt ["5"] =
    main unit (fun _ _ => true) (fun s => s) (fun w _ _ => w) a tt [] /\
  ((main unit (fun _ _ => true) (fun s => s) (fun w _ _ => w) a tt ["5"]).2 = Finished \/
   (main unit (fun _ _ => true) (fun s => s) (fun w _ _ => w) a tt ["5"]).2 = InvalidDirectory) /\
  (forall o d, In (o, d) (main unit (fun _ _ => true) (fun s => s) (fun w _ _ => w) a tt ["5"]).1.2 ->
     d = "~/x" /\ forall rf, o = OpReport rf -> rf <> "").
Proof.
  intros a.
  apply (main_command_line unit (fun _ _ => true) (fun s => s) (fun w _ _ => w)
           a tt ["5"] "~/x" 4%Z); [reflexivity|reflexivity|discriminate|discriminate].
Defined.

Lemma interactive_ends_with_input_witness :
  (List.length ["1"; "/d"; "y"] < 10)%nat /\
  interactive unit (fun _ _ => true) (fun s => s) (fun w _ _ => w) 10 tt ["1"; "/d"; "y"] =
  interactive unit (fun _ _ => true) (fun s => s) (fun w _ _ => w) 4 tt ["1"; "/d"; "y"].
Proof.
  split; [cbn; lia|].
  exact (interactive_ends_with_input unit (fun _ _ => true) (fun s => s) (fun w _ _ => w)
           ["1"; "/d"; "y"] 10 tt ltac:(cbn; lia)).
Defined.

